(** * Mount-option policy engine of the udisks2 daemon

    Shallow embedding of [src/udiskslinuxmountoptions.c] and the properties
    of its option merging and validation pipeline.

    Conventions of the embedding:
    - a C string ([gchar *]) is a [string]; a possibly-NULL string is an
      [option string];
    - a NULL-terminated string vector ([gchar **]) is a [list string], and a
      possibly-NULL one an [option (list string)]: the code tells a NULL
      vector from an empty one;
    - [uid_t] and [gid_t] are unsigned 32-bit integers, kept as [Z] with the
      narrowing written out where a [long] is assigned to them;
    - the second-level [GHashTable] (file system type to record) is a
      [gmap]; the first-level one is a list of bindings in the order in
      which [g_hash_table_get_keys] enumerates them, because the code
      breaks out of that enumeration at the first matching key;
    - the [GVariant] of type [a{ss}] built by the synthesizer is the list
      of its dictionary entries. *)

From Stdlib Require Import ZArith String Ascii List Bool Lia DecimalString.
From Stdlib Require Import DecimalFacts DecimalPos DecimalN.
From stdpp Require Import base option list gmap strings.

Local Open Scope string_scope.
Local Open Scope Z_scope.

(** ** The C and GLib string functions the file uses *)

Module CString.

(** [g_str_equal]. *)
Definition g_str_equal (a b : string) : bool := String.eqb a b.

(** [g_strv_contains]. *)
Definition g_strv_contains (strv : list string) (s : string) : bool :=
  existsb (g_str_equal s) strv.

(** [g_strv_length]. *)
Definition g_strv_length (strv : list string) : nat := length strv.

(** [strchr (s, c)], as the offset of the first occurrence. *)
Fixpoint strchr (s : string) (c : ascii) : option nat :=
  match s with
  | EmptyString => None
  | String d r => if Ascii.eqb d c then Some O else S <$> strchr r c
  end.

(** Pointer arithmetic [s + n] inside a string (the end of the string is
    not passed). *)
Fixpoint str_offset (s : string) (n : nat) {struct n} : string :=
  match n, s with
  | O, _ => s
  | S n', String _ r => str_offset r n'
  | S _, EmptyString => EmptyString
  end.

(** [g_strndup (s, n)]: at most the first [n] bytes. *)
Fixpoint g_strndup (s : string) (n : nat) {struct n} : string :=
  match n, s with
  | S n', String c r => String c (g_strndup r n')
  | _, _ => EmptyString
  end.

(** [strncmp (a, b, n) == 0]. *)
Fixpoint strncmp_eq (a b : string) (n : nat) {struct n} : bool :=
  match n with
  | O => true
  | S n' =>
      match a, b with
      | EmptyString, EmptyString => true
      | String c r, String d t => Ascii.eqb c d && strncmp_eq r t n'
      | _, _ => false
      end
  end.

(** [g_str_has_prefix (s, p)]. *)
Definition g_str_has_prefix (s p : string) : bool := String.prefix p s.

(** [strstr (hay, needle)], as the offset of the first occurrence. *)
Fixpoint strstr (hay needle : string) : option nat :=
  if String.prefix needle hay then Some O
  else match hay with
       | EmptyString => None
       | String _ r => S <$> strstr r needle
       end.

(** [g_strsplit (s, ",", -1)]: the pieces between the delimiter bytes;
    GLib returns the empty vector for the empty string. *)
Fixpoint strsplit_pieces (s : string) (delim : ascii) : list string :=
  match s with
  | EmptyString => [EmptyString]
  | String c r =>
      if Ascii.eqb c delim then EmptyString :: strsplit_pieces r delim
      else match strsplit_pieces r delim with
           | p :: ps => String c p :: ps
           | [] => [String c EmptyString]
           end
  end.

Definition g_strsplit (s : string) (delim : ascii) : list string :=
  match s with
  | EmptyString => []
  | _ => strsplit_pieces s delim
  end.

(** [g_ascii_strdown]. *)
Definition g_ascii_tolower (c : ascii) : ascii :=
  let n := N_of_ascii c in
  if ((65 <=? n) && (n <=? 90))%N then ascii_of_N (n + 32) else c.

Fixpoint g_ascii_strdown (s : string) : string :=
  match s with
  | EmptyString => EmptyString
  | String c r => String (g_ascii_tolower c) (g_ascii_strdown r)
  end.

(** Assignment of a [long] to a [uid_t] or [gid_t], and the value that a
    variable of these types holds. *)
Definition to_uint32 (v : Z) : Z := v mod 2 ^ 32.

(** [g_strdup_printf ("%u", n)] for [n] a [uid_t] or [gid_t]: the decimal
    text of the unsigned 32-bit value. *)
Definition printf_u (n : Z) : string :=
  NilZero.string_of_uint (N.to_uint (Z.to_N (to_uint32 n))).

(** *** [strtol (nptr, &endp, 10)]

    [long] is the 64-bit type of the LP64 Linux targets of the daemon.
    The result is the converted value together with the rest of the
    string at [endp]; without any digit [endp] is [nptr] itself. *)
Definition LONG_MAX : Z := 2 ^ 63 - 1.
Definition LONG_MIN : Z := - 2 ^ 63.

Definition isspace (c : ascii) : bool :=
  let n := N_of_ascii c in ((n =? 32) || ((9 <=? n) && (n <=? 13)))%N.

Definition digit_value (c : ascii) : option Z :=
  let n := N_of_ascii c in
  if ((48 <=? n) && (n <=? 57))%N then Some (Z.of_N n - 48) else None.

Fixpoint skip_spaces (s : string) : string :=
  match s with
  | String c r => if isspace c then skip_spaces r else s
  | EmptyString => s
  end.

(** Digits of [s] accumulated onto [acc]; [seen] tells whether a digit
    was consumed. *)
Fixpoint strtol_digits (s : string) (acc : Z) (seen : bool)
  : Z * bool * string :=
  match s with
  | String c r =>
      match digit_value c with
      | Some d => strtol_digits r (10 * acc + d) true
      | None => (acc, seen, s)
      end
  | EmptyString => (acc, seen, s)
  end.

Definition strtol (nptr : string) : Z * string :=
  let s := skip_spaces nptr in
  let '(neg, s) :=
    match s with
    | String "-" r => (true, r)
    | String "+" r => (false, r)
    | _ => (false, s)
    end in
  let '(acc, seen, endp) := strtol_digits s 0 false in
  if seen then
    let v := if neg : bool then - acc else acc in
    (Z.max LONG_MIN (Z.min LONG_MAX v), endp)
  else (0, nptr).

(** A [gchar] read as an [int] ([char] is signed on the x86 targets) and
    an [int] stored into a [gchar]. *)
Definition gchar_to_int (c : ascii) : Z :=
  let n := Z.of_N (N_of_ascii c) in if n <? 128 then n else n - 256.

Definition int_to_gchar (v : Z) : ascii := ascii_of_N (Z.to_N (v mod 256)).

(** GLib's [MAX] macro. *)
Definition MAX (a b : Z) : Z := if a >? b then a else b.

End CString.

Import CString.

(** ** Policy records ([FSMountOptions]) and their two merge operations *)

Record FSMountOptions := mkFSMountOptions {
  defaults : option (list string);
  allow : option (list string);
  allow_uid_self : option (list string);
  allow_gid_self : option (list string)
}.

(** A record fresh from [g_malloc0]: every member is NULL. *)
Definition fsmo_zero : FSMountOptions := mkFSMountOptions None None None None.

(** The entries of a possibly-NULL string vector. *)
Definition strv_entries (v : option (list string)) : list string :=
  default [] v.

(** [strv_append_unique (src, &dest)]; the result is the new [*dest]. *)
Definition strv_append_unique (src dest : option (list string))
  : option (list string) :=
  match src with
  | None => dest
  | Some s =>
      if Nat.eqb (g_strv_length s) 0 then dest
      else match dest with
           | None => Some s
           | Some d =>
               let l := List.filter (fun x => negb (g_strv_contains d x)) s in
               if Nat.ltb 0 (length l) then Some (d ++ l)%list else Some d
           end
  end.

Definition append_fs_mount_options (src : option FSMountOptions)
    (dest : FSMountOptions) : FSMountOptions :=
  match src with
  | None => dest
  | Some s =>
      {| defaults := strv_append_unique (defaults s) (defaults dest);
         allow := strv_append_unique (allow s) (allow dest);
         allow_uid_self :=
           strv_append_unique (allow_uid_self s) (allow_uid_self dest);
         allow_gid_self :=
           strv_append_unique (allow_gid_self s) (allow_gid_self dest) |}
  end.

(** The [OVERRIDE_MEMBER] macro: a non-NULL member of the source replaces
    the member of the destination. *)
Definition OVERRIDE_MEMBER (src_m dest_m : option (list string))
  : option (list string) :=
  match src_m with
  | Some m => Some m
  | None => dest_m
  end.

Definition override_fs_mount_options (src : option FSMountOptions)
    (dest : FSMountOptions) : FSMountOptions :=
  match src with
  | None => dest
  | Some s =>
      {| defaults := OVERRIDE_MEMBER (defaults s) (defaults dest);
         allow := OVERRIDE_MEMBER (allow s) (allow dest);
         allow_uid_self :=
           OVERRIDE_MEMBER (allow_uid_self s) (allow_uid_self dest);
         allow_gid_self :=
           OVERRIDE_MEMBER (allow_gid_self s) (allow_gid_self dest) |}
  end.

(** ** Policy stores and the collaborators of the daemon *)

Definition MOUNT_OPTIONS_CONFIG_GROUP_DEFAULTS : string := "defaults".
Definition MOUNT_OPTIONS_KEY_DEFAULTS : string := "defaults".
Definition MOUNT_OPTIONS_KEY_ALLOW : string := "allow".
Definition MOUNT_OPTIONS_KEY_ALLOW_UID_SELF : string := "allow_uid_self".
Definition MOUNT_OPTIONS_KEY_ALLOW_GID_SELF : string := "allow_gid_self".

(** Second level: file system type (or ["defaults"]) to record. *)
Abbreviation fs_table := (gmap string FSMountOptions).

(** First level: section name (["defaults"] or a device path) to a second
    level table, as the bindings in key enumeration order. *)
Abbreviation block_table := (list (string * gmap string FSMountOptions)).

(** [g_hash_table_lookup] on a first-level table. *)
Fixpoint g_hash_table_lookup (t : block_table) (k : string)
  : option fs_table :=
  match t with
  | [] => None
  | (k', v) :: r => if g_str_equal k' k then Some v else g_hash_table_lookup r k
  end.

(** [g_hash_table_get_keys]. *)
Definition g_hash_table_get_keys (t : block_table) : list string := t.*1.

(** The udev side of a block device: the table that
    [mount_options_get_from_udev] builds from its [UDISKS_MOUNT_OPTIONS_]
    properties, and its [UDISKS_FILESYSTEM_SHARED] property. *)
Record GUdevDevice := mkGUdevDevice {
  udev_mount_options : fs_table;
  UDISKS_FILESYSTEM_SHARED : bool
}.

Record UDisksBlock := mkUDisksBlock {
  udisks_block_get_device : string;
  udisks_block_get_symlinks : option (list string);
  udev_device : option GUdevDevice
}.

(** The daemon: its built-in table (the object data ["mount-options"]), the
    outcome of [mount_options_parse_config_file] on the global
    [mount_options.conf] (NULL when the file is absent, empty or
    unreadable), and the user database behind
    [udisks_daemon_util_get_user_info] and [getgrouplist]. *)
Record UDisksDaemon := mkUDisksDaemon {
  builtin_opts : option block_table;
  config_file_opts : option block_table;
  udisks_daemon_util_get_user_info : Z -> option (Z * string);
  getgrouplist : string -> Z -> list Z
}.

(** ** The policy resolver *)

(** The key loop of [compute_block_level_mount_options]: the first key
    other than ["defaults"] that is the device path or one of its
    symlinks. *)
Fixpoint match_block_key (keys : list string) (block_device : string)
    (block_symlinks : option (list string)) : option string :=
  match keys with
  | [] => None
  | k :: ks =>
      if g_str_equal k MOUNT_OPTIONS_CONFIG_GROUP_DEFAULTS
      then match_block_key ks block_device block_symlinks
      else if g_str_equal k block_device
              || match block_symlinks with
                 | Some l => g_strv_contains l k
                 | None => false
                 end
           then Some k
           else match_block_key ks block_device block_symlinks
  end.

(** One pair of lookups and overrides in a second-level table: its
    ["defaults"] record feeds [fsmo_any], its [fstype] record feeds
    [fsmo]. *)
Definition override_from_table (t : fs_table) (fstype : option string)
    (acc : FSMountOptions * FSMountOptions * bool)
  : FSMountOptions * FSMountOptions * bool :=
  let '(fsmo, fsmo_any, changed) := acc in
  let o := t !! MOUNT_OPTIONS_CONFIG_GROUP_DEFAULTS in
  let fsmo_any := override_fs_mount_options o fsmo_any in
  let changed := changed || bool_decide (is_Some o) in
  let o := fstype ≫= fun f => t !! f in
  let fsmo := override_fs_mount_options o fsmo in
  let changed := changed || bool_decide (is_Some o) in
  (fsmo, fsmo_any, changed).

(** [compute_block_level_mount_options]; the result is the pair of
    accumulators after the call and the returned flag. *)
Definition compute_block_level_mount_options (opts : block_table)
    (block : option UDisksBlock) (fstype : option string)
    (fsmo fsmo_any : FSMountOptions)
  : FSMountOptions * FSMountOptions * bool :=
  let acc := (fsmo, fsmo_any, false) in
  let general_options :=
    g_hash_table_lookup opts MOUNT_OPTIONS_CONFIG_GROUP_DEFAULTS in
  let acc :=
    match general_options with
    | Some g => override_from_table g fstype acc
    | None => acc
    end in
  let block_options :=
    match block with
    | Some b =>
        match_block_key (g_hash_table_get_keys opts)
          (udisks_block_get_device b) (udisks_block_get_symlinks b)
          ≫= g_hash_table_lookup opts
    | None => None
    end in
  match block_options with
  | Some bo => override_from_table bo fstype acc
  | None => acc
  end.

(** The two accumulators of [compute_mount_options_for_fs_type] once the
    built-in table, the configuration file and the udev properties have
    been applied, for a daemon whose built-in table is [builtin]. *)
Definition accumulate_origins (daemon : UDisksDaemon) (builtin : block_table)
    (block : UDisksBlock) (fstype : option string)
  : FSMountOptions * FSMountOptions * bool :=
  let '(fsmo, fsmo_any, _) :=
    compute_block_level_mount_options builtin (Some block) fstype
      fsmo_zero fsmo_zero in
  let '(fsmo, fsmo_any, changed) :=
    match config_file_opts daemon with
    | Some overrides =>
        compute_block_level_mount_options overrides (Some block) fstype
          fsmo fsmo_any
    | None => (fsmo, fsmo_any, false)
    end in
  match udev_device block with
  | Some dev =>
      override_from_table (udev_mount_options dev) fstype
        (fsmo, fsmo_any, changed)
  | None => (fsmo, fsmo_any, changed)
  end.

(** [compute_mount_options_for_fs_type]: NULL without a built-in table,
    else the specific accumulator with the general one appended. *)
Definition compute_mount_options_for_fs_type (daemon : UDisksDaemon)
    (block : UDisksBlock) (fstype : option string) : option FSMountOptions :=
  match builtin_opts daemon with
  | None => None
  | Some builtin =>
      let '(fsmo, fsmo_any, _) :=
        accumulate_origins daemon builtin block fstype in
      Some (append_fs_mount_options (Some fsmo_any) fsmo)
  end.

(** ** The policy loader: tokenizing one policy value *)

Section Loader.

(** libmount's [mnt_optstr_next_option] is not part of the daemon.  It is
    taken as the sequence of options that successive calls return with
    code 0 (a name and, after a [=], a value), together with the first
    non-zero code: 1 at the end of the string, negative on a syntax
    error. *)
Variable mnt_optstr_next_option : string -> list (string * option string) * Z.

Definition parse_mount_options_string (str : option string)
  : option (list string) :=
  match str with
  | None => None
  | Some s =>
      let '(found, ret) := mnt_optstr_next_option s in
      let opts :=
        map (fun nv : string * option string =>
               match nv.2 with
               | None => nv.1
               | Some v => nv.1 ++ "=" ++ v
               end) found in
      if ret <? 0 then None else Some opts
  end.

(** [g_str_has_suffix]. *)
Definition g_str_has_suffix (s suffix : string) : bool :=
  Nat.leb (String.length suffix) (String.length s)
  && g_str_equal
       (str_offset s (String.length s - String.length suffix)) suffix.

(** The [TEST_AND_RETURN_GROUP] macro. *)
Definition TEST_AND_RETURN_GROUP (key g : string)
    (otherwise : option (string * string)) : option (string * string) :=
  if g_str_has_suffix key ("_" ++ g)
  then Some (g_strndup key (String.length key - String.length g - 1), g)
  else otherwise.

(** [extract_fs_type]: the file system type and the group of a key. *)
Definition extract_fs_type (key : string) : option (string * string) :=
  if g_str_equal key MOUNT_OPTIONS_KEY_DEFAULTS
     || g_str_equal key MOUNT_OPTIONS_KEY_ALLOW
     || g_str_equal key MOUNT_OPTIONS_KEY_ALLOW_UID_SELF
     || g_str_equal key MOUNT_OPTIONS_KEY_ALLOW_GID_SELF
  then Some (MOUNT_OPTIONS_CONFIG_GROUP_DEFAULTS, key)
  else
    TEST_AND_RETURN_GROUP key MOUNT_OPTIONS_KEY_ALLOW_UID_SELF
      (TEST_AND_RETURN_GROUP key MOUNT_OPTIONS_KEY_ALLOW_GID_SELF
         (TEST_AND_RETURN_GROUP key MOUNT_OPTIONS_KEY_ALLOW
            (TEST_AND_RETURN_GROUP key MOUNT_OPTIONS_KEY_DEFAULTS None))).

(** [parse_key_value_pair]: the table after the call. *)
Definition parse_key_value_pair (mount_options : fs_table)
    (key value : string) : fs_table :=
  match extract_fs_type key with
  | None => mount_options
  | Some (fs_type, group) =>
      let ent := default fsmo_zero (mount_options !! fs_type) in
      let opts := parse_mount_options_string (Some value) in
      let ent :=
        if g_str_equal group MOUNT_OPTIONS_KEY_ALLOW_UID_SELF then
          mkFSMountOptions (defaults ent) (allow ent) opts (allow_gid_self ent)
        else if g_str_equal group MOUNT_OPTIONS_KEY_ALLOW_GID_SELF then
          mkFSMountOptions (defaults ent) (allow ent) (allow_uid_self ent) opts
        else if g_str_equal group MOUNT_OPTIONS_KEY_ALLOW then
          mkFSMountOptions (defaults ent) opts
            (allow_uid_self ent) (allow_gid_self ent)
        else if g_str_equal group MOUNT_OPTIONS_CONFIG_GROUP_DEFAULTS then
          mkFSMountOptions opts (allow ent)
            (allow_uid_self ent) (allow_gid_self ent)
        else ent in
      <[fs_type := ent]> mount_options
  end.

End Loader.

(** ** The allow-list evaluator *)

Definition VARIANT_NULL_STRING : string := String "001" EmptyString.

Section Engine.

Variable daemon : UDisksDaemon.

Definition is_uid_in_gid (uid gid : Z) : bool :=
  match udisks_daemon_util_get_user_info daemon uid with
  | None => false
  | Some (primary_gid, user_name) =>
      if primary_gid =? gid then true
      else
        let groups := getgrouplist daemon user_name primary_gid in
        (* more than the 128 slots of the static array: getgrouplist < 0 *)
        if Nat.ltb 128 (length groups) then false
        else existsb (Z.eqb gid) groups
  end.

(** The test shared by the [allow_uid_self] and [allow_gid_self] branches:
    [None] when the value is missing, empty or not consumed to its end by
    [strtol], else the converted number. *)
Definition self_value (value : option string) : option Z :=
  match value with
  | None => None
  | Some v =>
      if Nat.eqb (String.length v) 0 then None
      else
        let '(n, endp) := strtol v in
        match endp with
        | EmptyString => Some n
        | String _ _ => None
        end
  end.

Definition in_strv (v : option (list string)) (s : string) : bool :=
  match v with
  | Some l => g_strv_contains l s
  | None => false
  end.

Definition is_mount_option_allowed (fsmo : option FSMountOptions)
    (opt : string) (value : option string) (caller_uid : Z) : bool :=
  let allow_v := fsmo ≫= allow in
  let uid_self_v := fsmo ≫= allow_uid_self in
  let gid_self_v := fsmo ≫= allow_gid_self in
  if match value with
     | Some v =>
         Nat.ltb 0 (String.length v) && in_strv allow_v (opt ++ "=" ++ v)
     | None => false
     end
  then true
  else if in_strv uid_self_v opt then
    match self_value value with
    | None => false
    | Some n => to_uint32 n =? caller_uid
    end
  else if in_strv gid_self_v opt then
    match self_value value with
    | None => false
    | Some n => is_uid_in_gid caller_uid (to_uint32 n)
    end
  else if in_strv allow_v (opt ++ "=") then true
  else if in_strv allow_v opt then true
  else if g_str_has_prefix opt "x-" then true
  else false.

(** ** The default synthesizer *)

(** The two stores into [shared_mode]: bytes 2 and 3 of the copy of the
    value get [MAX (shared_mode[1] - 2, '4')].  On a value shorter than
    four bytes the stores hit the terminating NUL or the memory behind
    it, which is undefined: [None]. *)
Definition shared_mode (value : string) : option string :=
  let sm := list_ascii_of_string value in
  if decide (4 <= length sm)%nat then
    c1 ← sm !! 1%nat;
    let m := int_to_gchar (MAX (gchar_to_int c1 - 2) (gchar_to_int "4")) in
    Some (string_of_list_ascii (<[3%nat := m]> (<[2%nat := m]> sm)))
  else None.

(** The entry, if any, that one token of [defaults] adds to the builder;
    [None] is the undefined behaviour of [shared_mode]. *)
Definition default_entry (fsmo : FSMountOptions) (caller_uid : Z)
    (shared_fs : bool) (opt : string) : option (list (string * string)) :=
  match strchr opt "=" with
  | Some opt_len =>
      let value := str_offset opt (S opt_len) in
      if Nat.ltb 0 (String.length value) && in_strv (allow fsmo) opt
      then Some [(g_strndup opt opt_len, value)]
      else if strncmp_eq opt "uid" opt_len
      then Some [("uid", printf_u caller_uid)]
      else if strncmp_eq opt "gid" opt_len
      then match udisks_daemon_util_get_user_info daemon caller_uid with
           | Some (gid, _) => Some [("gid", printf_u gid)]
           | None => Some []
           end
      else if shared_fs && strncmp_eq opt "mode" opt_len
      then sm ← shared_mode value; Some [("mode", sm)]
      else if shared_fs && strncmp_eq opt "dmode" opt_len
      then Some [("dmode", "0555")]
      else Some [(g_strndup opt opt_len, value)]
  | None => Some [(opt, VARIANT_NULL_STRING)]
  end.

Fixpoint default_entries (fsmo : FSMountOptions) (caller_uid : Z)
    (shared_fs : bool) (defs : list string)
  : option (list (string * string)) :=
  match defs with
  | [] => Some []
  | opt :: rest =>
      e ← default_entry fsmo caller_uid shared_fs opt;
      es ← default_entries fsmo caller_uid shared_fs rest;
      Some (e ++ es)%list
  end.

(** The entry that one piece of the caller's option string adds. *)
Definition given_entry (opt : string) : string * string :=
  match strchr opt "=" with
  | Some opt_len => (g_strndup opt opt_len, str_offset opt (S opt_len))
  | None => (opt, VARIANT_NULL_STRING)
  end.

(** [given_options] is the string stored under ["options"], if any. *)
Definition given_entries (given_options : option string)
  : list (string * string) :=
  match given_options with
  | Some option_string => map given_entry (g_strsplit option_string ",")
  | None => []
  end.

Definition prepend_default_mount_options (fsmo : option FSMountOptions)
    (caller_uid : Z) (given_options : option string) (shared_fs : bool)
  : option (list (string * string)) :=
  ds ← match fsmo with
       | Some f =>
           default_entries f caller_uid shared_fs (strv_entries (defaults f))
       | None => Some []
       end;
  Some (ds ++ given_entries given_options)%list.

(** ** The mount-option assembler *)

Inductive UDisksError := UDISKS_ERROR_OPTION_NOT_PERMITTED.

Record GError := mkGError { code : UDisksError; message : string }.

(** What [udisks_linux_calculate_mount_options] does: undefined behaviour,
    NULL with [error] set, or the option string. *)
Inductive mount_options_result :=
| Undefined
| Rejected (error : GError)
| Options (str : string).

Definition malformed_option (key : string) : GError :=
  mkGError UDISKS_ERROR_OPTION_NOT_PERMITTED
    ("Malformed mount option `" ++ key ++ "'").

Definition option_not_allowed (key : string) (value : option string)
  : GError :=
  mkGError UDISKS_ERROR_OPTION_NOT_PERMITTED
    match value with
    | None => "Mount option `" ++ key ++ "' is not allowed"
    | Some v => "Mount option `" ++ key ++ "=" ++ v ++ "' is not allowed"
    end.

(** The value of a dictionary entry with the sentinel turned into NULL. *)
Definition variant_value (value : string) : option string :=
  if g_str_equal value VARIANT_NULL_STRING then None else Some value.

(** The validation loop over the entries of [options_to_use], with [str]
    the string built so far. *)
Fixpoint validate_mount_options (fsmo : option FSMountOptions)
    (caller_uid : Z) (options_to_use : list (string * string)) (str : string)
  : mount_options_result :=
  match options_to_use with
  | [] => Options str
  | (key, value) :: rest =>
      let value := variant_value value in
      if bool_decide (is_Some (strstr key ","))
      then Rejected (malformed_option key)
      else if negb (is_mount_option_allowed fsmo key value caller_uid)
      then Rejected (option_not_allowed key value)
      else
        validate_mount_options fsmo caller_uid rest
          (str ++ ","
               ++ match value with
                  | None => key
                  | Some v => key ++ "=" ++ v
                  end)
  end.

Definition udisks_linux_calculate_mount_options (block : UDisksBlock)
    (caller_uid : Z) (fs_type : option string) (options : option string)
  : mount_options_result :=
  let shared_fs :=
    match udev_device block with
    | Some dev => UDISKS_FILESYSTEM_SHARED dev
    | None => false
    end in
  let fs_type_l := g_ascii_strdown <$> fs_type in
  let fsmo := compute_mount_options_for_fs_type daemon block fs_type_l in
  match prepend_default_mount_options fsmo caller_uid options shared_fs with
  | None => Undefined
  | Some options_to_use =>
      validate_mount_options fsmo caller_uid options_to_use
        "uhelper=udisks2,nodev,nosuid"
  end.

End Engine.

(** ** Vocabulary of the statements *)

(** The text that an accepted entry appends. *)
Definition serialized (kv : string * string) : string :=
  "," ++ match variant_value kv.2 with
         | None => kv.1
         | Some v => kv.1 ++ "=" ++ v
         end.

(** An entry passes when its name has no comma and the evaluator allows
    it. *)
Definition entry_passes (daemon : UDisksDaemon)
    (fsmo : option FSMountOptions) (caller_uid : Z) (kv : string * string)
  : Prop :=
  strstr kv.1 "," = None
  /\ is_mount_option_allowed daemon fsmo kv.1 (variant_value kv.2) caller_uid
     = true.

Fixpoint serialize_all (l : list (string * string)) : string :=
  match l with
  | [] => ""
  | kv :: r => serialized kv ++ serialize_all r
  end.

(** The record in force for a request, its shared-location flag and the
    candidate entries, as [udisks_linux_calculate_mount_options] computes
    them before the validation loop. *)
Definition effective_record (daemon : UDisksDaemon) (block : UDisksBlock)
    (fs_type : option string) : option FSMountOptions :=
  compute_mount_options_for_fs_type daemon block (g_ascii_strdown <$> fs_type).

Definition shared_fs_of (block : UDisksBlock) : bool :=
  match udev_device block with
  | Some dev => UDISKS_FILESYSTEM_SHARED dev
  | None => false
  end.

Definition candidates (daemon : UDisksDaemon) (block : UDisksBlock)
    (caller_uid : Z) (fs_type options : option string)
  : option (list (string * string)) :=
  prepend_default_mount_options daemon
    (effective_record daemon block fs_type) caller_uid options
    (shared_fs_of block).

(** ** Example policies *)

(** A user database with the single user 1000, whose primary group is
    1000. *)
Definition user_1000 (uid : Z) : option (Z * string) :=
  if uid =? 1000 then Some (1000, "alice") else None.

Definition vfat_allow : list string := ["shortname=mixed"; "shortname=lower"].

(** Built-in policy with bare [uid] and [gid] default tokens. *)
Definition bare_defaults_daemon : UDisksDaemon :=
  mkUDisksDaemon
    (Some
       [("defaults",
         {[ "defaults" :=
              mkFSMountOptions (Some ["uid"; "gid"; "shortname=mixed"])
                None None None;
            "vfat" := mkFSMountOptions None (Some vfat_allow) None None ]})])
    None user_1000 (fun _ g => [g]).

(** Built-in policy with [uid=] and [gid=] default tokens and the two
    self-match lists. *)
Definition vfat_daemon : UDisksDaemon :=
  mkUDisksDaemon
    (Some
       [("defaults",
         {[ "defaults" :=
              mkFSMountOptions (Some ["uid="; "gid="; "shortname=mixed"])
                None (Some ["uid"]) (Some ["gid"]);
            "vfat" := mkFSMountOptions None (Some vfat_allow) None None ]})])
    None user_1000 (fun _ g => [g]).

(** A device that no policy section names, with no policy properties. *)
Definition plain_block : UDisksBlock :=
  mkUDisksBlock "/dev/sdb1" None (Some (mkGUdevDevice ∅ false)).

(** ** The conditions of the evaluator's branches *)

(** The value is non-empty and the token [opt=value] is in [allow]. *)
Definition exact_token_listed (fsmo : option FSMountOptions) (opt : string)
    (value : option string) : Prop :=
  exists f l v,
    fsmo = Some f /\ allow f = Some l /\ value = Some v /\ v <> ""
    /\ In (opt ++ "=" ++ v) l.

(** [s] is an entry of the given member of the record. *)
Definition listed_in (member : FSMountOptions -> option (list string))
    (fsmo : option FSMountOptions) (s : string) : Prop :=
  exists f l, fsmo = Some f /\ member f = Some l /\ In s l.

(** What the [allow_uid_self] and [allow_gid_self] branches return. *)
Definition uid_self_decision (value : option string) (caller_uid : Z) : bool :=
  match self_value value with
  | None => false
  | Some n => to_uint32 n =? caller_uid
  end.

Definition gid_self_decision (daemon : UDisksDaemon) (value : option string)
    (caller_uid : Z) : bool :=
  match self_value value with
  | None => false
  | Some n => is_uid_in_gid daemon caller_uid (to_uint32 n)
  end.

(** A record that only lists [uid] in [allow_uid_self], and one that also
    has the bare name and [uid=] in [allow]. *)
Definition uid_self_record : FSMountOptions :=
  mkFSMountOptions None None (Some ["uid"]) None.

Definition uid_self_and_allow_record : FSMountOptions :=
  mkFSMountOptions None (Some ["uid"; "uid="]) (Some ["uid"]) None.

(** ** The four members of a record, and policy tables with one section *)

Definition fsmo_members : list (FSMountOptions -> option (list string)) :=
  [defaults; allow; allow_uid_self; allow_gid_self].

(** The entries of [general] that [specific] does not hold, in the order
    of [general]. *)
Definition novel_entries (specific general : list string) : list string :=
  List.filter (fun x => negb (g_strv_contains specific x)) general.

(** A block device without udev policy: no udev device, or one whose
    table is empty. *)
Definition no_udev_policy (block : UDisksBlock) : Prop :=
  forall dev, udev_device block = Some dev -> udev_mount_options dev = ∅.

(** A record that only defines [allow], and one that only defines
    [defaults]. *)
Definition allow_only (l : list string) : FSMountOptions :=
  mkFSMountOptions None (Some l) None None.

Definition defaults_only (l : list string) : FSMountOptions :=
  mkFSMountOptions (Some l) None None None.

(** Two origins that define [allow] for the same section and file system
    type. *)
Definition two_origin_daemon (scope fstype : string) (la lb : list string)
  : UDisksDaemon :=
  mkUDisksDaemon
    (Some [(scope, {[ fstype := allow_only la ]})])
    (Some [(scope, {[ fstype := allow_only lb ]})])
    user_1000 (fun _ g => [g]).

(** A built-in table whose general section defines [defaults] for one file
    system type and for any file system type. *)
Definition specific_general_daemon (fstype x y : string) : UDisksDaemon :=
  mkUDisksDaemon
    (Some
       [("defaults",
         {[ "defaults" := defaults_only [y]; fstype := defaults_only [x] ]})])
    None user_1000 (fun _ g => [g]).

(** A record whose only default is [mode=0750]. *)
Definition mode_default_record : FSMountOptions := defaults_only ["mode=0750"].

(** ** The key test of [compute_block_level_mount_options] *)

(** The test of the key loop: the key is not the general section and is
    the device path or one of the symlinks of the block. *)
Definition block_key_matches (block : UDisksBlock) (k : string) : bool :=
  negb (g_str_equal k MOUNT_OPTIONS_CONFIG_GROUP_DEFAULTS)
  && (g_str_equal k (udisks_block_get_device block)
      || match udisks_block_get_symlinks block with
         | Some l => g_strv_contains l k
         | None => false
         end).

(** A device with a symlink, for the examples. *)
Definition usb_block : UDisksBlock :=
  mkUDisksBlock "/dev/sdb1" (Some ["/dev/disk/by-label/STICK"]) None.

(** ** The rest of the policy loader *)

(** The errors of the loader functions: the two [UDISKS_ERROR] codes they
    set, and whatever GLib reports when a key file cannot be loaded. *)
Inductive LoaderError :=
| UDISKS_ERROR_NOT_SUPPORTED
| UDISKS_ERROR_FAILED
| G_KEY_FILE_LOAD_ERROR.

(** A group of a [GKeyFile]: the keys that [g_key_file_get_keys] returns,
    in file order, and [g_key_file_get_string] for the group (NULL when
    the value cannot be retrieved). *)
Record GKeyFileGroup := mkGKeyFileGroup {
  g_key_file_get_keys : list string;
  g_key_file_get_string : string -> option string
}.

(** A [GKeyFile]: its groups in the order of [g_key_file_get_groups]. *)
Abbreviation GKeyFile := (list (string * GKeyFileGroup)).

(** The properties of a udev device: [g_udev_device_get_property_keys]
    and [g_udev_device_get_property]. *)
Record GUdevProperties := mkGUdevProperties {
  g_udev_device_get_property_keys : list string;
  g_udev_device_get_property : string -> option string
}.

Definition UDEV_MOUNT_OPTIONS_PREFIX : string := "UDISKS_MOUNT_OPTIONS_".

Section LoaderFiles.

Variable mnt_optstr_next_option : string -> list (string * option string) * Z.

(** [mount_options_parse_group]: the loop runs from the last key to the
    first. *)
Definition mount_options_parse_group (group : GKeyFileGroup) : fs_table :=
  fold_left
    (fun (mount_options : fs_table) (k : string) =>
       match g_key_file_get_string group k with
       | None => mount_options
       | Some value =>
           parse_key_value_pair mnt_optstr_next_option mount_options
             (g_ascii_strdown k) value
       end)
    (rev (g_key_file_get_keys group)) ∅.

(** [mount_options_parse_key_file]: an error without groups, else the
    table of the groups; the loop runs from the last group to the first
    and [mount_options_parse_group] never returns NULL. *)
Definition mount_options_parse_key_file (key_file : GKeyFile)
  : LoaderError + gmap string (gmap string FSMountOptions) :=
  match key_file with
  | [] => inl UDISKS_ERROR_NOT_SUPPORTED
  | _ =>
      inr (fold_left
             (fun (mount_options : gmap string (gmap string FSMountOptions))
                  (g : string * GKeyFileGroup) =>
                <[g.1 := mount_options_parse_group g.2]> mount_options)
             (rev key_file) ∅)
  end.

(** [mount_options_parse_config_file], on the outcome of
    [g_key_file_load_from_file]. *)
Definition mount_options_parse_config_file (loaded : LoaderError + GKeyFile)
  : LoaderError + gmap string (gmap string FSMountOptions) :=
  match loaded with
  | inl e => inl e
  | inr key_file => mount_options_parse_key_file key_file
  end.

(** [mount_options_get_from_udev]; [dev] is the [udev_device] member of
    the device. *)
Definition mount_options_get_from_udev (dev : option GUdevProperties)
  : LoaderError + fs_table :=
  match dev with
  | None => inl UDISKS_ERROR_FAILED
  | Some d =>
      inr (fold_left
             (fun (mount_options : fs_table) (k : string) =>
                if g_str_has_prefix k UDEV_MOUNT_OPTIONS_PREFIX then
                  match g_udev_device_get_property d k with
                  | None => mount_options
                  | Some value =>
                      parse_key_value_pair mnt_optstr_next_option mount_options
                        (g_ascii_strdown
                           (str_offset k
                              (String.length UDEV_MOUNT_OPTIONS_PREFIX)))
                        value
                  end
                else mount_options)
             (g_udev_device_get_property_keys d) ∅)
  end.

(** [udisks_linux_mount_options_get_builtin], on the key file loaded from
    the built-in resource (NULL when the resource is missing or cannot be
    loaded). *)
Definition udisks_linux_mount_options_get_builtin (resource : option GKeyFile)
  : option (gmap string (gmap string FSMountOptions)) :=
  match resource with
  | None => None
  | Some key_file =>
      match mount_options_parse_key_file key_file with
      | inl _ => None
      | inr mount_options =>
          if bool_decide
               (is_Some (mount_options !! MOUNT_OPTIONS_CONFIG_GROUP_DEFAULTS))
          then Some mount_options
          else None
      end
  end.

End LoaderFiles.

(** ** Vocabulary for the loader statements *)

(** The four key names. *)
Definition mount_options_keys : list string :=
  [MOUNT_OPTIONS_KEY_DEFAULTS; MOUNT_OPTIONS_KEY_ALLOW;
   MOUNT_OPTIONS_KEY_ALLOW_UID_SELF; MOUNT_OPTIONS_KEY_ALLOW_GID_SELF].

(** The member of a record that a key name stands for. *)
Definition member_named (g : string) (r : FSMountOptions)
  : option (list string) :=
  if g_str_equal g MOUNT_OPTIONS_KEY_ALLOW_UID_SELF then allow_uid_self r
  else if g_str_equal g MOUNT_OPTIONS_KEY_ALLOW_GID_SELF then allow_gid_self r
  else if g_str_equal g MOUNT_OPTIONS_KEY_ALLOW then allow r
  else if g_str_equal g MOUNT_OPTIONS_KEY_DEFAULTS then defaults r
  else None.

(** The last [n] bytes of a string. *)
Definition str_tail (s : string) (n : nat) : string :=
  str_offset s (String.length s - n).

(** A tokenizer for the examples: every string is one option without a
    value. *)
Definition whole_string_tokenizer (s : string)
  : list (string * option string) * Z :=
  ([(s, None)], 1).

(** A udev device with the single property [key], of value [value]. *)
Definition single_property (key value : string) : GUdevProperties :=
  mkGUdevProperties [key] (fun _ => Some value).

(** ** Decimal digits *)

(** The number that [strtol_digits] accumulates over the digits [d],
    starting from [acc]. *)
Fixpoint uint_value (d : Decimal.uint) (acc : Z) : Z :=
  match d with
  | Decimal.Nil => acc
  | Decimal.D0 d => uint_value d (10 * acc)
  | Decimal.D1 d => uint_value d (10 * acc + 1)
  | Decimal.D2 d => uint_value d (10 * acc + 2)
  | Decimal.D3 d => uint_value d (10 * acc + 3)
  | Decimal.D4 d => uint_value d (10 * acc + 4)
  | Decimal.D5 d => uint_value d (10 * acc + 5)
  | Decimal.D6 d => uint_value d (10 * acc + 6)
  | Decimal.D7 d => uint_value d (10 * acc + 7)
  | Decimal.D8 d => uint_value d (10 * acc + 8)
  | Decimal.D9 d => uint_value d (10 * acc + 9)
  end.

(** The bytes ['0'] to ['9']. *)
Definition is_digit (c : ascii) : bool :=
  match digit_value c with
  | Some _ => true
  | None => false
  end.

(** ** The text of an entry *)

(** What the validation loop writes for an entry, after the comma. *)
Definition rendered (kv : string * string) : string :=
  match variant_value kv.2 with
  | None => kv.1
  | Some v => kv.1 ++ "=" ++ v
  end.

(** The three fixed options as entries. *)
Definition fixed_entries : list (string * string) :=
  [("uhelper", "udisks2"); ("nodev", VARIANT_NULL_STRING);
   ("nosuid", VARIANT_NULL_STRING)].

(** A daemon without built-in table. *)
Definition no_builtin_daemon : UDisksDaemon :=
  mkUDisksDaemon None None user_1000 (fun _ g => [g]).

(** ** Records and tables without repeated entries *)

Definition record_nodup (r : FSMountOptions) : Prop :=
  forall m, In m fsmo_members -> NoDup (strv_entries (m r)).

Definition table_nodup (t : gmap string FSMountOptions) : Prop :=
  forall k r, t !! k = Some r -> record_nodup r.

Definition block_table_nodup (opts : block_table) : Prop :=
  forall k t, In (k, t) opts -> table_nodup t.

(** ** The two sides of a comma *)

(** The entries of one side of a comma of the option string: those of its
    pieces.  An empty side is one piece, the empty one. *)
Definition side_entries (s : string) : list (string * string) :=
  map given_entry (strsplit_pieces s ",").

(** ** A policy that allows given names *)



(** * Properties *)

(** ** Strings *)

Lemma string_app_cons (x : ascii) (a b : string) :
  String x a ++ b = String x (a ++ b).
Proof. reflexivity. Qed.

Lemma string_app_nil_l (a : string) : "" ++ a = a.
Proof. reflexivity. Qed.

Lemma string_app_assoc (a b c : string) : (a ++ b) ++ c = a ++ b ++ c.
Proof.
  induction a as [|x a IH]; [reflexivity|].
  now rewrite !string_app_cons, IH.
Qed.

Lemma string_app_nil_r (a : string) : a ++ "" = a.
Proof.
  induction a as [|x a IH]; [reflexivity|].
  now rewrite string_app_cons, IH.
Qed.

Lemma g_strv_contains_spec (l : list string) (s : string) :
  g_strv_contains l s = true <-> In s l.
Proof.
  unfold g_strv_contains, g_str_equal. rewrite existsb_exists. split.
  - intros (x & Hx & E). apply String.eqb_eq in E. now subst.
  - intros H. exists s. split; [exact H | apply String.eqb_refl].
Qed.

Lemma g_strv_contains_false (l : list string) (s : string) :
  g_strv_contains l s = false <-> ~ In s l.
Proof.
  rewrite <- g_strv_contains_spec. destruct (g_strv_contains l s); split;
    congruence.
Qed.

(** ** The validation loop *)

Lemma validate_pass_step daemon fsmo uid kv rest str :
  entry_passes daemon fsmo uid kv ->
  validate_mount_options daemon fsmo uid (kv :: rest) str
  = validate_mount_options daemon fsmo uid rest (str ++ serialized kv).
Proof.
  destruct kv as [k v]. intros [Hc Ha]. simpl in *.
  rewrite Hc, Ha. rewrite bool_decide_eq_false_2 by (intros [? ?]; discriminate).
  reflexivity.
Qed.

Lemma validate_all_pass daemon fsmo uid l : forall str,
  Forall (entry_passes daemon fsmo uid) l ->
  validate_mount_options daemon fsmo uid l str
  = Options (str ++ serialize_all l).
Proof.
  induction l as [|kv l IH]; intros str H.
  - simpl. now rewrite string_app_nil_r.
  - inversion H as [|? ? Hkv Hl]; subst.
    rewrite validate_pass_step by exact Hkv.
    rewrite IH by exact Hl. now rewrite string_app_assoc.
Qed.

Lemma validate_app_pass daemon fsmo uid pre : forall post str,
  Forall (entry_passes daemon fsmo uid) pre ->
  validate_mount_options daemon fsmo uid (pre ++ post)%list str
  = validate_mount_options daemon fsmo uid post (str ++ serialize_all pre).
Proof.
  induction pre as [|kv pre IH]; intros post str H.
  - simpl. now rewrite string_app_nil_r.
  - inversion H as [|? ? Hkv Hl]; subst.
    change ((kv :: pre) ++ post)%list with (kv :: (pre ++ post))%list.
    rewrite validate_pass_step by exact Hkv.
    rewrite IH by exact Hl. now rewrite string_app_assoc.
Qed.

Lemma validate_options_inv daemon fsmo uid l : forall str s,
  validate_mount_options daemon fsmo uid l str = Options s ->
  Forall (entry_passes daemon fsmo uid) l /\ s = str ++ serialize_all l.
Proof.
  induction l as [|[k v] l IH]; intros str s H.
  - simpl in H. inversion H. split; [constructor | now rewrite string_app_nil_r].
  - simpl in H.
    destruct (strstr k ",") eqn:Hc.
    { rewrite bool_decide_eq_true_2 in H by eauto. discriminate. }
    rewrite bool_decide_eq_false_2 in H by (intros [? ?]; discriminate).
    destruct (is_mount_option_allowed daemon fsmo k (variant_value v) uid)
      eqn:Ha; simpl in H; [|discriminate].
    apply IH in H as [Hl ->]. split.
    + constructor; [split; assumption | exact Hl].
    + change (serialize_all ((k, v) :: l))
        with (serialized (k, v) ++ serialize_all l).
      rewrite <- (string_app_assoc str (serialized (k, v))). reflexivity.
Qed.

Lemma validate_never_undefined daemon fsmo uid l : forall str,
  validate_mount_options daemon fsmo uid l str <> Undefined.
Proof.
  induction l as [|[k v] l IH]; intros str; simpl; [discriminate|].
  destruct (bool_decide _); [discriminate|].
  destruct (negb _); [discriminate | apply IH].
Qed.

Lemma serialize_all_shape (l : list (string * string)) :
  serialize_all l = "" \/ exists r, serialize_all l = "," ++ r.
Proof. destruct l as [|kv l]; [now left | right]. simpl. eauto. Qed.

(** C1.  Whenever [udisks_linux_calculate_mount_options] returns an option
    string, that string is [uhelper=udisks2,nodev,nosuid] followed by
    nothing or by a comma and the validated options: whatever the policy
    tables, the device and the options of the caller are, the three fixed
    options come first and are all there. *)
Theorem calculated_options_start_with_fixed_options
    (daemon : UDisksDaemon) (block : UDisksBlock) (caller_uid : Z)
    (fs_type options : option string) (s : string) :
  udisks_linux_calculate_mount_options daemon block caller_uid fs_type options
  = Options s ->
  exists rest,
    s = "uhelper=udisks2,nodev,nosuid" ++ rest
    /\ (rest = "" \/ exists r, rest = "," ++ r).
Proof.
  unfold udisks_linux_calculate_mount_options.
  destruct (prepend_default_mount_options _ _ _ _ _) as [l|]; [|discriminate].
  intros H. apply validate_options_inv in H as [_ ->].
  exists (serialize_all l). split; [reflexivity | apply serialize_all_shape].
Qed.

Lemma calculated_options_start_with_fixed_options_witness :
  udisks_linux_calculate_mount_options vfat_daemon plain_block 1000
    (Some "vfat") None
  = Options "uhelper=udisks2,nodev,nosuid,uid=1000,gid=1000,shortname=mixed"
  /\ exists rest,
       "uhelper=udisks2,nodev,nosuid,uid=1000,gid=1000,shortname=mixed"
       = "uhelper=udisks2,nodev,nosuid" ++ rest
       /\ (rest = "" \/ exists r, rest = "," ++ r).
Proof.
  split; [reflexivity|].
  apply (calculated_options_start_with_fixed_options vfat_daemon plain_block
           1000 (Some "vfat") None).
  reflexivity.
Defined.

Lemma calculate_unfold daemon block uid fs_type options :
  udisks_linux_calculate_mount_options daemon block uid fs_type options
  = match candidates daemon block uid fs_type options with
    | None => Undefined
    | Some l =>
        validate_mount_options daemon (effective_record daemon block fs_type)
          uid l "uhelper=udisks2,nodev,nosuid"
    end.
Proof. reflexivity. Qed.

Lemma validate_first_offender daemon fsmo uid pre k v post str :
  Forall (entry_passes daemon fsmo uid) pre ->
  validate_mount_options daemon fsmo uid (pre ++ (k, v) :: post)%list str
  = if bool_decide (is_Some (strstr k ","))
    then Rejected (malformed_option k)
    else if negb (is_mount_option_allowed daemon fsmo k (variant_value v) uid)
         then Rejected (option_not_allowed k (variant_value v))
         else validate_mount_options daemon fsmo uid post
                (str ++ serialize_all pre ++ serialized (k, v)).
Proof.
  intros Hpre. rewrite validate_app_pass by exact Hpre. simpl.
  destruct (bool_decide _); [reflexivity|].
  destruct (negb _); [reflexivity|].
  now rewrite string_app_assoc.
Qed.

(** C2.  Let the candidate entries of a request be [cands].  At the first
    entry that does not pass, the request is rejected: with the
    [Malformed mount option] error naming the key when the key contains a
    comma, else with the [is not allowed] error naming the key and, when
    there is one, the value.  Hence a request with any entry that does not
    pass is rejected, and when an option string is returned every entry
    passed and the string is the fixed options followed by exactly the
    entries. *)
Theorem offending_option_rejects_request
    (daemon : UDisksDaemon) (block : UDisksBlock) (caller_uid : Z)
    (fs_type options : option string) (cands : list (string * string)) :
  candidates daemon block caller_uid fs_type options = Some cands ->
  let fsmo := effective_record daemon block fs_type in
  let result :=
    udisks_linux_calculate_mount_options daemon block caller_uid fs_type
      options in
  (forall pre k v post,
      cands = (pre ++ (k, v) :: post)%list ->
      Forall (entry_passes daemon fsmo caller_uid) pre ->
      (strstr k "," <> None -> result = Rejected (malformed_option k))
      /\ (strstr k "," = None ->
          is_mount_option_allowed daemon fsmo k (variant_value v) caller_uid
          = false ->
          result = Rejected (option_not_allowed k (variant_value v))))
  /\ (Exists (fun kv => ~ entry_passes daemon fsmo caller_uid kv) cands ->
      exists e, result = Rejected e)
  /\ (forall s,
        result = Options s ->
        Forall (entry_passes daemon fsmo caller_uid) cands
        /\ s = "uhelper=udisks2,nodev,nosuid" ++ serialize_all cands).
Proof.
  intros Hc fsmo result. subst result.
  rewrite calculate_unfold, Hc. fold fsmo. repeat split.
  - intros Hcomma. subst cands. rewrite validate_first_offender by assumption.
    rewrite bool_decide_eq_true_2; [reflexivity|].
    destruct (strstr k ","); [eauto | congruence].
  - intros Hcomma Hdeny. subst cands.
    rewrite validate_first_offender by assumption.
    rewrite bool_decide_eq_false_2, Hdeny; [reflexivity|].
    rewrite Hcomma. intros [? ?]; discriminate.
  - intros Hex.
    destruct (validate_mount_options daemon fsmo caller_uid cands _)
      as [|e|s] eqn:Hv.
    + now apply validate_never_undefined in Hv.
    + eauto.
    + apply validate_options_inv in Hv as [Hall _].
      apply Exists_exists in Hex as (kv & Hin & Hno).
      rewrite Forall_forall in Hall. exfalso. apply Hno, Hall, Hin.
  - apply validate_options_inv in H as [Hall _]. exact Hall.
  - apply validate_options_inv in H as [_ Hs]. exact Hs.
Qed.

Lemma offending_option_rejects_request_witness :
  candidates vfat_daemon plain_block 1000 (Some "vfat")
    (Some "shortname=win95")
  = Some [("uid", "1000"); ("gid", "1000"); ("shortname", "mixed");
          ("shortname", "win95")]
  /\ udisks_linux_calculate_mount_options vfat_daemon plain_block 1000
       (Some "vfat") (Some "shortname=win95")
     = Rejected (option_not_allowed "shortname" (Some "win95")).
Proof.
  split; [reflexivity|].
  refine (proj2 (proj1 (offending_option_rejects_request vfat_daemon
                          plain_block 1000 (Some "vfat")
                          (Some "shortname=win95") _ eq_refl)
                   [("uid", "1000"); ("gid", "1000"); ("shortname", "mixed")]
                   "shortname" "win95" [] eq_refl _) eq_refl eq_refl).
  repeat constructor.
Defined.

(** ** The allow-list evaluator *)

Lemma in_strv_spec (fsmo : option FSMountOptions)
    (member : FSMountOptions -> option (list string)) (s : string) :
  in_strv (fsmo ≫= member) s = true <-> listed_in member fsmo s.
Proof.
  unfold listed_in, in_strv. split.
  - destruct fsmo as [f|]; simpl; [|discriminate].
    destruct (member f) as [l|] eqn:E; [|discriminate].
    intros H. apply g_strv_contains_spec in H. eauto.
  - intros (f & l & -> & E & Hin). simpl. rewrite E.
    now apply g_strv_contains_spec.
Qed.

Lemma in_strv_false (fsmo : option FSMountOptions)
    (member : FSMountOptions -> option (list string)) (s : string) :
  in_strv (fsmo ≫= member) s = false <-> ~ listed_in member fsmo s.
Proof.
  rewrite <- in_strv_spec. destruct (in_strv _ s); split; congruence.
Qed.

Lemma string_length_pos (v : string) :
  Nat.ltb 0 (String.length v) = true <-> v <> "".
Proof.
  destruct v; simpl; split; intros H; try congruence; try reflexivity.
  discriminate.
Qed.

Lemma exact_token_spec fsmo opt value :
  match value with
  | Some v =>
      Nat.ltb 0 (String.length v) && in_strv (fsmo ≫= allow) (opt ++ "=" ++ v)
  | None => false
  end = true
  <-> exact_token_listed fsmo opt value.
Proof.
  unfold exact_token_listed. split.
  - destruct value as [v|]; [|discriminate].
    rewrite andb_true_iff, string_length_pos, in_strv_spec.
    intros [Hv (f & l & -> & E & Hin)]. exists f, l, v. auto.
  - intros (f & l & v & -> & E & -> & Hv & Hin).
    rewrite andb_true_iff, string_length_pos, in_strv_spec.
    split; [exact Hv | exists f, l; auto].
Qed.

(** C3.  With [allow_uid_self = ["uid"]], nothing in [allow] and requester
    uid 1000, the evaluator does what the claim's examples say
    ([uid=1000] allowed; [uid=1001], [uid=abc] and bare [uid] not), but it
    also allows [uid=4294968296], which is 2^32 + 1000 and not the
    requester's uid: [strtol] yields the 64-bit number and the assignment
    to [uid_t] drops the high bits.  A value with leading white space or a
    sign is consumed by [strtol] as well.  The assembler passes the option
    through. *)
Theorem uid_self_allows_value_congruent_to_uid (daemon : UDisksDaemon) :
  let allowed := is_mount_option_allowed daemon (Some uid_self_record) "uid" in
  allowed (Some "1000") 1000 = true
  /\ allowed (Some "1001") 1000 = false
  /\ allowed (Some "abc") 1000 = false
  /\ allowed (Some "") 1000 = false
  /\ allowed None 1000 = false
  /\ allowed (Some "4294968296") 1000 = true
  /\ allowed (Some " +1000") 1000 = true
  /\ udisks_linux_calculate_mount_options vfat_daemon plain_block 1000
       (Some "vfat") (Some "uid=4294968296")
     = Options
         "uhelper=udisks2,nodev,nosuid,uid=1000,gid=1000,shortname=mixed,uid=4294968296".
Proof. repeat split; reflexivity. Qed.

(** C4.  The evaluator decides by the first rule that applies, in this
    order.  (1) A non-empty value whose token [opt=value] is in [allow]:
    allowed, whatever the self-match lists hold.  (2) Otherwise, a name in
    [allow_uid_self]: the answer is that of the uid self-match, in which
    [allow] plays no part.  (3) Otherwise, a name in [allow_gid_self]: the
    answer is that of the gid self-match.  (4) Only a name in neither list
    is looked up in [allow] as [opt=] or as the bare name, and after that
    tested for the [x-] prefix. *)
Theorem evaluator_first_matching_rule_decides
    (daemon : UDisksDaemon) (fsmo : option FSMountOptions) (opt : string)
    (value : option string) (caller_uid : Z) :
  let allowed :=
    is_mount_option_allowed daemon fsmo opt value caller_uid in
  (exact_token_listed fsmo opt value -> allowed = true)
  /\ (~ exact_token_listed fsmo opt value ->
      listed_in allow_uid_self fsmo opt ->
      allowed = uid_self_decision value caller_uid)
  /\ (~ exact_token_listed fsmo opt value ->
      ~ listed_in allow_uid_self fsmo opt ->
      listed_in allow_gid_self fsmo opt ->
      allowed = gid_self_decision daemon value caller_uid)
  /\ (~ exact_token_listed fsmo opt value ->
      ~ listed_in allow_uid_self fsmo opt ->
      ~ listed_in allow_gid_self fsmo opt ->
      (allowed = true
       <-> listed_in allow fsmo (opt ++ "=") \/ listed_in allow fsmo opt
           \/ g_str_has_prefix opt "x-" = true)).
Proof.
  intros allowed. subst allowed. unfold is_mount_option_allowed.
  pose proof (exact_token_spec fsmo opt value) as Hex.
  destruct (match value with Some _ => _ | None => _ end) eqn:E1.
  { assert (Hyes : exact_token_listed fsmo opt value)
      by (apply Hex; reflexivity).
    repeat split; intros; try reflexivity; contradiction. }
  assert (Hnex : ~ exact_token_listed fsmo opt value).
  { intros H. apply Hex in H. discriminate. }
  split; [intros H; contradiction|].
  destruct (in_strv (fsmo ≫= allow_uid_self) opt) eqn:E2.
  { apply in_strv_spec in E2. repeat split; try reflexivity;
      intros; contradiction. }
  apply in_strv_false in E2. split; [intros; contradiction|].
  destruct (in_strv (fsmo ≫= allow_gid_self) opt) eqn:E3.
  { apply in_strv_spec in E3. repeat split; try reflexivity;
      intros; contradiction. }
  apply in_strv_false in E3. split; [intros; contradiction|].
  intros _ _ _.
  rewrite <- !in_strv_spec.
  destruct (in_strv (fsmo ≫= allow) (opt ++ "=")); [tauto|].
  destruct (in_strv (fsmo ≫= allow) opt); [tauto|].
  destruct (g_str_has_prefix opt "x-"); [tauto|].
  intuition discriminate.
Qed.

Lemma evaluator_first_matching_rule_decides_witness :
  (~ exact_token_listed (Some uid_self_and_allow_record) "uid" (Some "1001"))
  /\ listed_in allow_uid_self (Some uid_self_and_allow_record) "uid"
  /\ listed_in allow (Some uid_self_and_allow_record) "uid"
  /\ is_mount_option_allowed vfat_daemon (Some uid_self_and_allow_record)
       "uid" (Some "1001") 1000
     = false.
Proof.
  assert (Hn : ~ exact_token_listed (Some uid_self_and_allow_record) "uid"
                 (Some "1001")).
  { intros (f & l & v & Hf & Hl & Hv & _ & Hin).
    inversion Hf; subst f. inversion Hl; subst l. inversion Hv; subst v.
    simpl in Hin. destruct Hin as [H|[H|[]]]; discriminate. }
  assert (Hu : listed_in allow_uid_self (Some uid_self_and_allow_record)
                 "uid").
  { exists uid_self_and_allow_record, ["uid"]. simpl. auto. }
  split; [exact Hn|]. split; [exact Hu|]. split.
  - exists uid_self_and_allow_record, ["uid"; "uid="]. simpl. auto.
  - exact (proj1 (proj2 (evaluator_first_matching_rule_decides vfat_daemon
                           (Some uid_self_and_allow_record) "uid"
                           (Some "1001") 1000)) Hn Hu).
Defined.

(** ** The policy resolver *)

Lemma override_member_spec (src dest : FSMountOptions)
    (m : FSMountOptions -> option (list string)) :
  In m fsmo_members ->
  m (override_fs_mount_options (Some src) dest) = OVERRIDE_MEMBER (m src) (m dest).
Proof.
  unfold fsmo_members. simpl.
  intros [<-|[<-|[<-|[<-|[]]]]]; reflexivity.
Qed.

Lemma override_from_table_empty fstype acc :
  override_from_table ∅ fstype acc = acc.
Proof.
  destruct acc as [[fsmo fsmo_any] changed]. unfold override_from_table.
  rewrite lookup_empty. simpl.
  destruct fstype as [f|]; simpl; [rewrite lookup_empty|]; simpl;
    now rewrite !orb_false_r.
Qed.

Lemma udev_step_no_policy block fstype acc :
  no_udev_policy block ->
  match udev_device block with
  | Some dev => override_from_table (udev_mount_options dev) fstype acc
  | None => acc
  end = acc.
Proof.
  intros H. destruct (udev_device block) as [dev|] eqn:E; [|reflexivity].
  now rewrite (H dev E), override_from_table_empty.
Qed.

Lemma override_from_table_singleton fstype r fsmo fsmo_any changed :
  override_from_table {[ fstype := r ]} (Some fstype)
    (fsmo, fsmo_any, changed)
  = (override_fs_mount_options (Some r) fsmo,
     if decide (fstype = MOUNT_OPTIONS_CONFIG_GROUP_DEFAULTS)
     then override_fs_mount_options (Some r) fsmo_any else fsmo_any,
     true).
Proof.
  unfold override_from_table. simpl. rewrite lookup_singleton_eq.
  destruct (decide (fstype = MOUNT_OPTIONS_CONFIG_GROUP_DEFAULTS)) as [->|Hne].
  - rewrite lookup_singleton_eq. f_equal. apply orb_true_r.
  - rewrite lookup_singleton_ne by congruence. f_equal. apply orb_true_r.
Qed.

Lemma override_from_table_pair fstype rg rs fsmo fsmo_any changed :
  fstype <> MOUNT_OPTIONS_CONFIG_GROUP_DEFAULTS ->
  override_from_table
    {[ MOUNT_OPTIONS_CONFIG_GROUP_DEFAULTS := rg; fstype := rs ]}
    (Some fstype) (fsmo, fsmo_any, changed)
  = (override_fs_mount_options (Some rs) fsmo,
     override_fs_mount_options (Some rg) fsmo_any, true).
Proof.
  intros Hne. unfold override_from_table. cbn [mbind option_bind].
  rewrite lookup_insert_eq.
  rewrite lookup_insert_ne by congruence. rewrite lookup_singleton_eq.
  f_equal. apply orb_true_r.
Qed.

(** A table with the single section [scope], which is the general section
    or the section of the device, is applied exactly once. *)
Lemma single_section_level scope (t : fs_table) block fstype fsmo fsmo_any :
  scope = MOUNT_OPTIONS_CONFIG_GROUP_DEFAULTS
  \/ scope = udisks_block_get_device block ->
  compute_block_level_mount_options [(scope, t)] (Some block) fstype
    fsmo fsmo_any
  = override_from_table t fstype (fsmo, fsmo_any, false).
Proof.
  intros Hscope. unfold compute_block_level_mount_options. simpl.
  unfold g_str_equal.
  destruct (String.eqb_spec scope MOUNT_OPTIONS_CONFIG_GROUP_DEFAULTS)
    as [->|Hne].
  - reflexivity.
  - destruct Hscope as [->| ->]; [congruence|].
    rewrite String.eqb_refl. simpl. rewrite String.eqb_refl. reflexivity.
Qed.

Lemma novel_entries_self (l : list string) : novel_entries l l = [].
Proof.
  unfold novel_entries.
  assert (H : forall d, (forall x, In x l -> In x d) ->
                        List.filter (fun x => negb (g_strv_contains d x)) l = []).
  { induction l as [|a l IH]; intros d Hd; [reflexivity|]. simpl.
    assert (Ha : g_strv_contains d a = true)
      by (apply g_strv_contains_spec, Hd; now left).
    rewrite Ha. simpl. apply IH. intros x Hx. apply Hd. now right. }
  apply H. auto.
Qed.

Lemma strv_append_unique_self (l : list string) :
  strv_append_unique (Some l) (Some l) = Some l.
Proof.
  unfold strv_append_unique. destruct (Nat.eqb _ 0); [reflexivity|].
  fold (novel_entries l l). now rewrite novel_entries_self.
Qed.

(** C5, as the spec words it, fails on a member that the later origin
    holds as an empty list (a key given with an empty value): the member
    is not defined as a non-empty list, yet it is not left untouched, the
    empty list replaces what the accumulator had. *)
Lemma empty_member_of_later_origin_replaces :
  override_fs_mount_options (Some (allow_only [])) (allow_only ["a"])
  = allow_only []
  /\ strv_entries
       (allow (override_fs_mount_options (Some (allow_only []))
                 (allow_only ["a"])))
     <> ["a"]
  /\ compute_mount_options_for_fs_type
       (two_origin_daemon "defaults" "vfat" ["a"] []) plain_block
       (Some "vfat")
     = Some (allow_only []).
Proof. split; [reflexivity | split; [discriminate | reflexivity]]. Qed.

(** C5, amended.  [override_fs_mount_options] gives each of the four
    members of the accumulator the list of the source when the source
    holds the member, be the list empty or not, with nothing kept from the
    list the accumulator had, and leaves it as it was when the source
    does not hold the member (NULL).  Through the whole resolver: when the
    built-in table has [allow] as [la] and the configuration file has it
    as [lb], in the same section (the general one or that of the device)
    and for the same file system type, the effective record has [allow]
    equal to [lb]. *)
Theorem later_origin_replaces_member :
  (forall (src dest : FSMountOptions) m,
      In m fsmo_members ->
      (forall l, m src = Some l ->
                 m (override_fs_mount_options (Some src) dest) = Some l)
      /\ (m src = None ->
          m (override_fs_mount_options (Some src) dest) = m dest))
  /\ (forall (block : UDisksBlock) (scope fstype : string)
             (la lb : list string),
        scope = "defaults" \/ scope = udisks_block_get_device block ->
        no_udev_policy block ->
        compute_mount_options_for_fs_type
          (two_origin_daemon scope fstype la lb) block (Some fstype)
        = Some (allow_only lb)).
Proof.
  split.
  - intros src dest m Hm. rewrite (override_member_spec src dest m Hm).
    split; [intros l -> | intros ->]; reflexivity.
  - intros block scope fstype la lb Hscope Hudev.
    unfold compute_mount_options_for_fs_type, accumulate_origins,
      two_origin_daemon.
    cbn [builtin_opts config_file_opts].
    rewrite single_section_level, override_from_table_singleton
      by exact Hscope.
    rewrite single_section_level, override_from_table_singleton
      by exact Hscope.
    rewrite udev_step_no_policy by exact Hudev.
    destruct (decide (fstype = MOUNT_OPTIONS_CONFIG_GROUP_DEFAULTS));
      unfold allow_only, fsmo_zero;
      cbn [append_fs_mount_options override_fs_mount_options OVERRIDE_MEMBER
             defaults allow allow_uid_self allow_gid_self].
    + now rewrite strv_append_unique_self.
    + reflexivity.
Qed.

Lemma later_origin_replaces_member_witness :
  no_udev_policy plain_block
  /\ compute_mount_options_for_fs_type
       (two_origin_daemon "defaults" "vfat" ["a"] ["b"]) plain_block
       (Some "vfat")
     = Some (allow_only ["b"]).
Proof.
  assert (H : no_udev_policy plain_block).
  { intros dev E. inversion E. reflexivity. }
  split; [exact H|].
  exact (proj2 later_origin_replaces_member plain_block "defaults" "vfat"
           ["a"] ["b"] (or_introl eq_refl) H).
Defined.

Lemma novel_entries_spec (specific general : list string) (x : string) :
  In x (novel_entries specific general) <-> In x general /\ ~ In x specific.
Proof.
  unfold novel_entries. rewrite filter_In, negb_true_iff.
  now rewrite g_strv_contains_false.
Qed.

Lemma novel_entries_nil_l (general : list string) :
  novel_entries [] general = general.
Proof.
  unfold novel_entries. induction general as [|a l IH]; [reflexivity|].
  cbn [List.filter]. change (g_strv_contains [] a) with false.
  cbn [negb]. now rewrite IH.
Qed.

Lemma strv_append_unique_entries (src dest : option (list string)) :
  strv_entries (strv_append_unique src dest)
  = (strv_entries dest
       ++ novel_entries (strv_entries dest) (strv_entries src))%list.
Proof.
  unfold strv_append_unique.
  destruct src as [s|]; [|simpl; now rewrite app_nil_r].
  destruct s as [|a s]; [simpl; now rewrite app_nil_r|].
  change (Nat.eqb (g_strv_length (a :: s)) 0) with false. cbv iota.
  destruct dest as [d|].
  - cbv zeta. change (strv_entries (Some (a :: s))) with (a :: s).
    change (strv_entries (Some d)) with d.
    change (List.filter (fun x => negb (g_strv_contains d x)) (a :: s))
      with (novel_entries d (a :: s)).
    generalize (novel_entries d (a :: s)). intros [|b l]; simpl;
      [now rewrite app_nil_r | reflexivity].
  - change (strv_entries (Some (a :: s))) with (a :: s).
    change (strv_entries None) with (@nil string).
    now rewrite novel_entries_nil_l.
Qed.

(** C6.  The effective record is the specific accumulator with the general
    one appended member by member: the entries of each of its four
    members are those of the specific accumulator, in their order,
    followed by the entries of the general accumulator that the specific
    one does not hold, in the order of the general one.  With specific
    defaults [[x]] and general defaults [[y]] the effective defaults are
    [[x; y]], and [[x]] alone when [x = y]. *)
Theorem effective_record_appends_general_to_specific :
  (forall (daemon : UDisksDaemon) builtin (block : UDisksBlock)
          (fstype : option string) fsmo fsmo_any changed,
      builtin_opts daemon = Some builtin ->
      accumulate_origins daemon builtin block fstype
      = (fsmo, fsmo_any, changed) ->
      exists r,
        compute_mount_options_for_fs_type daemon block fstype = Some r
        /\ forall m, In m fsmo_members ->
             strv_entries (m r)
             = (strv_entries (m fsmo)
                  ++ novel_entries (strv_entries (m fsmo))
                       (strv_entries (m fsmo_any)))%list)
  /\ (forall specific general x,
        In x (novel_entries specific general)
        <-> In x general /\ ~ In x specific)
  /\ (forall (block : UDisksBlock) (fstype x y : string),
        fstype <> "defaults" ->
        no_udev_policy block ->
        compute_mount_options_for_fs_type
          (specific_general_daemon fstype x y) block (Some fstype)
        = Some (defaults_only (if decide (x = y) then [x] else [x; y]))).
Proof.
  split; [|split].
  - intros daemon builtin block fstype fsmo fsmo_any changed Hb Hacc.
    unfold compute_mount_options_for_fs_type. rewrite Hb, Hacc.
    eexists. split; [reflexivity|].
    unfold fsmo_members. simpl.
    intros m [<-|[<-|[<-|[<-|[]]]]]; apply strv_append_unique_entries.
  - apply novel_entries_spec.
  - intros block fstype x y Hne Hudev.
    unfold compute_mount_options_for_fs_type, accumulate_origins,
      specific_general_daemon.
    cbn [builtin_opts config_file_opts].
    rewrite single_section_level by now left.
    rewrite override_from_table_pair by exact Hne.
    rewrite udev_step_no_policy by exact Hudev.
    unfold defaults_only, fsmo_zero. simpl.
    unfold g_str_equal. destruct (decide (x = y)) as [->|Hxy].
    + now rewrite String.eqb_refl.
    + destruct (String.eqb_spec y x); [congruence | reflexivity].
Qed.

Lemma effective_record_appends_general_to_specific_witness :
  no_udev_policy plain_block
  /\ compute_mount_options_for_fs_type
       (specific_general_daemon "vfat" "flush" "ro") plain_block (Some "vfat")
     = Some (defaults_only ["flush"; "ro"]).
Proof.
  assert (H : no_udev_policy plain_block).
  { intros dev E. inversion E. reflexivity. }
  split; [exact H|].
  refine (proj2 (proj2 effective_record_appends_general_to_specific)
            plain_block "vfat" "flush" "ro" _ H).
  discriminate.
Defined.

(** ** The default synthesizer *)

Lemma default_entries_app daemon fsmo uid shared pre : forall post,
  default_entries daemon fsmo uid shared (pre ++ post)%list
  = a ← default_entries daemon fsmo uid shared pre;
    b ← default_entries daemon fsmo uid shared post;
    Some (a ++ b)%list.
Proof.
  induction pre as [|tok pre IH]; intros post.
  - simpl. now destruct (default_entries daemon fsmo uid shared post).
  - change ((tok :: pre) ++ post)%list with (tok :: (pre ++ post))%list.
    cbn [default_entries]. rewrite IH.
    destruct (default_entry daemon fsmo uid shared tok) as [e|]; [|reflexivity].
    destruct (default_entries daemon fsmo uid shared pre) as [a|];
      [|reflexivity].
    destruct (default_entries daemon fsmo uid shared post) as [b|];
      [|reflexivity].
    simpl. now rewrite app_assoc.
Qed.

Lemma shared_mode_four c0 c1 c2 c3 rest :
  shared_mode (String c0 (String c1 (String c2 (String c3 rest))))
  = let m := int_to_gchar (MAX (gchar_to_int c1 - 2) (gchar_to_int "4")) in
    Some (String c0 (String c1 (String m (String m rest)))).
Proof.
  unfold shared_mode. cbn [list_ascii_of_string].
  rewrite decide_True by (simpl; lia).
  cbn. now rewrite string_of_list_ascii_of_string.
Qed.

(** A value of fewer than four bytes makes the stores of the [mode] branch
    fall outside the string. *)
Lemma shared_mode_short_value_undefined (value : string) :
  (String.length value < 4)%nat -> shared_mode value = None.
Proof.
  intros H. unfold shared_mode. rewrite decide_False; [reflexivity|].
  assert (E : length (list_ascii_of_string value) = String.length value).
  { clear H. induction value as [|c v IH]; simpl; [reflexivity | now rewrite IH]. }
  rewrite E. lia.
Qed.

(** C7.  On a shared file system, a default token [mode=value] that is not
    itself in [allow], with [value] of four characters (or more), is
    emitted with its first two characters kept and its third and fourth
    characters both set to [MAX (second - 2, '4')]; for an ASCII second
    character this is the larger of its code minus two and the code of
    ['4'], so that owner digit ['7'] gives ['5'] ([0750] becomes [0755]).
    A default token [dmode=value] that is not in [allow] is emitted as
    [dmode=0555] whatever [value] is.  The entry takes the place of its
    token among the entries of the other defaults, before the entries of
    the caller. *)
Theorem shared_fs_adjusts_mode_and_dmode :
  (forall (daemon : UDisksDaemon) (fsmo : FSMountOptions) (caller_uid : Z)
          (c0 c1 c2 c3 : ascii) (rest : string),
      let value := String c0 (String c1 (String c2 (String c3 rest))) in
      let m := int_to_gchar (MAX (gchar_to_int c1 - 2) (gchar_to_int "4")) in
      in_strv (allow fsmo) ("mode=" ++ value) = false ->
      default_entry daemon fsmo caller_uid true ("mode=" ++ value)
      = Some [("mode", String c0 (String c1 (String m (String m rest))))])
  /\ (forall c1 : ascii,
        (N_of_ascii c1 < 128)%N ->
        Z.of_N (N_of_ascii
                  (int_to_gchar (MAX (gchar_to_int c1 - 2) (gchar_to_int "4"))))
        = Z.max (Z.of_N (N_of_ascii c1) - 2) (Z.of_N (N_of_ascii "4")))
  /\ shared_mode "0750" = Some "0755"
  /\ (forall (daemon : UDisksDaemon) (fsmo : FSMountOptions) (caller_uid : Z)
             (value : string),
        in_strv (allow fsmo) ("dmode=" ++ value) = false ->
        default_entry daemon fsmo caller_uid true ("dmode=" ++ value)
        = Some [("dmode", "0555")])
  /\ (forall (daemon : UDisksDaemon) (fsmo : FSMountOptions) (caller_uid : Z)
             (shared_fs : bool) (given : option string) pre tok post a e b,
        defaults fsmo = Some (pre ++ tok :: post)%list ->
        default_entries daemon fsmo caller_uid shared_fs pre = Some a ->
        default_entry daemon fsmo caller_uid shared_fs tok = Some e ->
        default_entries daemon fsmo caller_uid shared_fs post = Some b ->
        prepend_default_mount_options daemon (Some fsmo) caller_uid given
          shared_fs
        = Some (a ++ e ++ b ++ given_entries given)%list).
Proof.
  split; [|split; [|split; [|split]]].
  - intros daemon fsmo uid c0 c1 c2 c3 rest value m Hallow.
    unfold default_entry.
    change (strchr ("mode=" ++ value) "=") with (Some 4%nat).
    cbv beta iota zeta.
    change (str_offset ("mode=" ++ value) 5) with value.
    rewrite Hallow, andb_false_r.
    change (strncmp_eq ("mode=" ++ value) "uid" 4) with false.
    change (strncmp_eq ("mode=" ++ value) "gid" 4) with false.
    change (strncmp_eq ("mode=" ++ value) "mode" 4) with true.
    cbv iota. cbn [andb]. subst value. rewrite shared_mode_four. reflexivity.
  - intros c1.
    destruct c1 as [[] [] [] [] [] [] [] []]; intros H;
      try (vm_compute in H; discriminate H); reflexivity.
  - reflexivity.
  - intros daemon fsmo uid value Hallow.
    unfold default_entry.
    change (strchr ("dmode=" ++ value) "=") with (Some 5%nat).
    cbv beta iota zeta.
    change (str_offset ("dmode=" ++ value) 6) with value.
    rewrite Hallow, andb_false_r.
    reflexivity.
  - intros daemon fsmo uid shared given pre tok post a e b Hd Ha He Hb.
    unfold prepend_default_mount_options. rewrite Hd.
    change (strv_entries (Some (pre ++ tok :: post)%list))
      with (pre ++ tok :: post)%list.
    rewrite default_entries_app, Ha. cbn [default_entries mbind option_bind].
    rewrite He, Hb. simpl. now rewrite <- !app_assoc.
Qed.

Lemma shared_fs_adjusts_mode_and_dmode_witness :
  in_strv (allow mode_default_record) "mode=0750" = false
  /\ default_entry vfat_daemon mode_default_record 1000 true "mode=0750"
     = Some [("mode", "0755")].
Proof.
  split; [reflexivity|].
  exact (proj1 shared_fs_adjusts_mode_and_dmode vfat_daemon
           mode_default_record 1000 "0"%char "7"%char "5"%char "0"%char
           "" eq_refl).
Defined.

(** ** Whole requests *)

(** C8, as the spec words it, fails: with the bare tokens [uid] and [gid]
    in the general defaults and nothing but the two [shortname] tokens
    allowed, the request is refused at the first default. *)
Lemma bare_uid_default_not_substituted :
  udisks_linux_calculate_mount_options bare_defaults_daemon plain_block 1000
    (Some "vfat") None
  <> Options "uhelper=udisks2,nodev,nosuid,uid=1000,gid=1000,shortname=mixed".
Proof. vm_compute. discriminate. Qed.

(** C8, amended.  For a device without policy of its own, file system type
    [vfat], requester 1000 with primary group 1000 and no options from the
    caller: with the built-in general defaults [uid], [gid],
    [shortname=mixed] and the built-in [vfat] allow list of the two
    [shortname] tokens, the bare default [uid] is emitted without a value
    and the request is refused with [Mount option `uid' is not allowed];
    with the general defaults [uid=], [gid=], [shortname=mixed] and
    [uid] and [gid] in the general [allow_uid_self] and [allow_gid_self],
    the result is
    [uhelper=udisks2,nodev,nosuid,uid=1000,gid=1000,shortname=mixed]. *)
Theorem vfat_request_end_to_end :
  candidates bare_defaults_daemon plain_block 1000 (Some "vfat") None
  = Some [("uid", VARIANT_NULL_STRING); ("gid", VARIANT_NULL_STRING);
          ("shortname", "mixed")]
  /\ udisks_linux_calculate_mount_options bare_defaults_daemon plain_block
       1000 (Some "vfat") None
     = Rejected
         (mkGError UDISKS_ERROR_OPTION_NOT_PERMITTED
            "Mount option `uid' is not allowed")
  /\ candidates vfat_daemon plain_block 1000 (Some "vfat") None
     = Some [("uid", "1000"); ("gid", "1000"); ("shortname", "mixed")]
  /\ udisks_linux_calculate_mount_options vfat_daemon plain_block 1000
       (Some "vfat") None
     = Options
         "uhelper=udisks2,nodev,nosuid,uid=1000,gid=1000,shortname=mixed".
Proof. repeat split; reflexivity. Qed.

(** ** Splitting the caller's option string *)

Lemma strstr_comma_none (s : string) :
  strstr s "," = None <-> strchr s "," = None.
Proof.
  induction s as [|c s IH]; [split; reflexivity|].
  cbn [strstr strchr String.prefix].
  destruct (ascii_dec "," c) as [<-|Hne].
  - rewrite Ascii.eqb_refl. destruct s; split; discriminate.
  - destruct (Ascii.eqb_spec c ","); [congruence|].
    destruct (strstr s ","), (strchr s ","); simpl; split; intros H;
      try discriminate; try reflexivity.
    + apply IH in H. discriminate.
    + apply IH in H. discriminate.
Qed.

Lemma strsplit_pieces_no_delim (s : string) (delim : ascii) :
  strchr s delim = None -> strsplit_pieces s delim = [s].
Proof.
  induction s as [|c s IH]; [reflexivity|].
  cbn [strchr strsplit_pieces].
  destruct (Ascii.eqb c delim); [discriminate|].
  destruct (strchr s delim); [discriminate|]. intros _.
  now rewrite IH.
Qed.

Lemma strchr_app_found (name rest : string) (c : ascii) :
  strchr name c = None ->
  strchr (name ++ String c rest) c = Some (String.length name).
Proof.
  induction name as [|d name IH].
  - intros _. rewrite string_app_nil_l. cbn [strchr String.length].
    now rewrite Ascii.eqb_refl.
  - rewrite string_app_cons. cbn [strchr String.length].
    destruct (Ascii.eqb d c); [discriminate|].
    destruct (strchr name c) eqn:E; [discriminate|]. intros _.
    now rewrite IH.
Qed.

Lemma strchr_app_none (name rest : string) (c : ascii) :
  strchr name c = None -> strchr rest c = None ->
  strchr (name ++ rest) c = None.
Proof.
  induction name as [|d name IH]; [intros _ H; exact H|].
  rewrite string_app_cons. cbn [strchr].
  destruct (Ascii.eqb d c); [discriminate|].
  destruct (strchr name c) eqn:E; [discriminate|]. intros _ H.
  now rewrite IH.
Qed.

Lemma g_strndup_app (name rest : string) :
  g_strndup (name ++ rest) (String.length name) = name.
Proof.
  induction name as [|d name IH]; [reflexivity|].
  rewrite string_app_cons. cbn [g_strndup String.length]. now rewrite IH.
Qed.

Lemma str_offset_past_separator (name value : string) (c : ascii) :
  str_offset (name ++ String c value) (S (String.length name)) = value.
Proof.
  induction name as [|d name IH]; [reflexivity|].
  rewrite string_app_cons. exact IH.
Qed.

Lemma given_entry_with_value (name value : string) :
  strchr name "=" = None ->
  given_entry (name ++ "=" ++ value) = (name, value).
Proof.
  intros H. unfold given_entry.
  change (name ++ "=" ++ value) with (name ++ String "=" value).
  now rewrite (strchr_app_found name value "=" H), g_strndup_app,
    str_offset_past_separator.
Qed.

Lemma given_entry_bare (name : string) :
  strchr name "=" = None -> given_entry name = (name, VARIANT_NULL_STRING).
Proof. intros H. unfold given_entry. now rewrite H. Qed.

Lemma g_strsplit_single (s : string) :
  s <> "" -> strchr s "," = None -> g_strsplit s "," = [s].
Proof.
  intros Hne H. unfold g_strsplit. destruct s; [congruence|].
  now apply strsplit_pieces_no_delim.
Qed.

Lemma string_app_not_nil_r (a b : string) : b <> "" -> a ++ b <> "".
Proof. destruct a; [intros H; exact H | discriminate]. Qed.

(** C10.  No value is kept inside the dictionary as the one-byte string
    0x01.  For an option name without [=] and without comma, the option
    strings [name=<0x01>] and [name] give the same single entry, hence the
    same result of the whole request; in the validation loop that entry
    is evaluated with a NULL value and, when allowed, adds [,name] alone
    to the string, and when refused is reported by its name alone. *)
Theorem sentinel_value_reads_as_no_value (name : string) :
  name <> "" ->
  strchr name "=" = None ->
  strchr name "," = None ->
  given_entries (Some (name ++ "=" ++ VARIANT_NULL_STRING))
  = [(name, VARIANT_NULL_STRING)]
  /\ given_entries (Some name) = [(name, VARIANT_NULL_STRING)]
  /\ (forall daemon block caller_uid fs_type,
        udisks_linux_calculate_mount_options daemon block caller_uid fs_type
          (Some (name ++ "=" ++ VARIANT_NULL_STRING))
        = udisks_linux_calculate_mount_options daemon block caller_uid
            fs_type (Some name))
  /\ (forall daemon fsmo caller_uid rest str,
        validate_mount_options daemon fsmo caller_uid
          ((name, VARIANT_NULL_STRING) :: rest) str
        = if is_mount_option_allowed daemon fsmo name None caller_uid
          then validate_mount_options daemon fsmo caller_uid rest
                 (str ++ "," ++ name)
          else Rejected (option_not_allowed name None)).
Proof.
  intros Hne Heq Hcomma.
  assert (E1 : given_entries (Some (name ++ "=" ++ VARIANT_NULL_STRING))
               = [(name, VARIANT_NULL_STRING)]).
  { unfold given_entries. rewrite g_strsplit_single.
    - cbn [map]. now rewrite given_entry_with_value.
    - apply string_app_not_nil_r. discriminate.
    - apply strchr_app_none; [exact Hcomma | reflexivity]. }
  assert (E2 : given_entries (Some name) = [(name, VARIANT_NULL_STRING)]).
  { unfold given_entries. rewrite g_strsplit_single by assumption.
    cbn [map]. now rewrite given_entry_bare. }
  split; [exact E1|]. split; [exact E2|]. split.
  - intros daemon block uid fs_type.
    unfold udisks_linux_calculate_mount_options, prepend_default_mount_options.
    now rewrite E1, E2.
  - intros daemon fsmo uid rest str. cbn [validate_mount_options].
    change (variant_value VARIANT_NULL_STRING) with (@None string).
    apply strstr_comma_none in Hcomma. rewrite Hcomma.
    rewrite bool_decide_eq_false_2 by (intros [? ?]; discriminate).
    now destruct (is_mount_option_allowed daemon fsmo name None uid).
Qed.

Lemma sentinel_value_reads_as_no_value_witness :
  "x-late" <> "" /\ strchr "x-late" "=" = None /\ strchr "x-late" "," = None
  /\ udisks_linux_calculate_mount_options vfat_daemon plain_block 1000
       (Some "vfat") (Some ("x-late" ++ "=" ++ VARIANT_NULL_STRING))
     = udisks_linux_calculate_mount_options vfat_daemon plain_block 1000
         (Some "vfat") (Some "x-late").
Proof.
  assert (H : "x-late" <> "") by discriminate.
  split; [exact H|]. split; [reflexivity|]. split; [reflexivity|].
  exact (proj1 (proj2 (proj2 (sentinel_value_reads_as_no_value "x-late" H
                                 eq_refl eq_refl)))
           vfat_daemon plain_block 1000 (Some "vfat")).
Defined.

(** ** The error of a refused request *)

Lemma validate_rejected_inv daemon fsmo uid l : forall str e,
  validate_mount_options daemon fsmo uid l str = Rejected e ->
  exists k v,
    In (k, v) l
    /\ ((strstr k "," <> None /\ e = malformed_option k)
        \/ (is_mount_option_allowed daemon fsmo k (variant_value v) uid = false
            /\ e = option_not_allowed k (variant_value v))).
Proof.
  induction l as [|[k v] l IH]; intros str e H; [discriminate|].
  cbn [validate_mount_options] in H.
  destruct (strstr k ",") eqn:Hc.
  { rewrite bool_decide_eq_true_2 in H by eauto. inversion H; subst.
    exists k, v. split; [now left|]. left. rewrite Hc. split; [discriminate|].
    reflexivity. }
  rewrite bool_decide_eq_false_2 in H by (intros [? ?]; discriminate).
  destruct (is_mount_option_allowed daemon fsmo k (variant_value v) uid)
    eqn:Ha; cbn [negb] in H.
  - apply IH in H as (k' & v' & Hin & Hcase).
    exists k', v'. split; [now right | exact Hcase].
  - inversion H; subst. exists k, v. split; [now left|]. right. auto.
Qed.

(** * Further properties of the merge operations *)

Lemma strv_append_unique_in (src dest : option (list string))
    (x : string) :
  In x (strv_entries (strv_append_unique src dest))
  <-> In x (strv_entries dest) \/ In x (strv_entries src).
Proof.
  rewrite strv_append_unique_entries, in_app_iff, novel_entries_spec.
  destruct (In_dec string_dec x (strv_entries dest)); tauto.
Qed.

(** X1.  After [strv_append_unique] the destination holds exactly the
    entries it had and those of the source: nothing is dropped, nothing
    else comes in. *)
Theorem strv_append_unique_holds_both (src dest : option (list string))
    (x : string) :
  In x (strv_entries (strv_append_unique src dest))
  <-> In x (strv_entries dest) \/ In x (strv_entries src).
Proof.
  rewrite strv_append_unique_entries, in_app_iff, novel_entries_spec.
  destruct (In_dec string_dec x (strv_entries dest)); tauto.
Qed.

Lemma NoDup_novel_entries (d s : list string) :
  NoDup s -> NoDup (novel_entries d s).
Proof.
  unfold novel_entries. induction 1 as [|a s Ha Hs IH]; [constructor|].
  cbn [List.filter]. destruct (negb (g_strv_contains d a)); [|exact IH].
  constructor; [|exact IH].
  intros Hin. apply Ha. apply list_elem_of_In in Hin.
  apply filter_In in Hin as [Hin _]. now apply list_elem_of_In.
Qed.

Lemma strv_append_unique_nodup (src dest : option (list string)) :
  NoDup (strv_entries dest) ->
  NoDup (strv_entries src) ->
  NoDup (strv_entries (strv_append_unique src dest)).
Proof.
  intros Hd Hs. rewrite strv_append_unique_entries.
  apply NoDup_app. split; [exact Hd|]. split.
  - intros x Hx Hn. apply list_elem_of_In, novel_entries_spec in Hn.
    apply list_elem_of_In in Hx. tauto.
  - now apply NoDup_novel_entries.
Qed.

(** X2.  [strv_append_unique] keeps vectors free of duplicates: when
    neither the destination nor the source repeats an entry, the new
    destination does not either. *)
Theorem strv_append_unique_keeps_nodup (src dest : option (list string)) :
  NoDup (strv_entries dest) ->
  NoDup (strv_entries src) ->
  NoDup (strv_entries (strv_append_unique src dest)).
Proof.
  intros Hd Hs. rewrite strv_append_unique_entries.
  apply NoDup_app. split; [exact Hd|]. split.
  - intros x Hx Hn. apply list_elem_of_In, novel_entries_spec in Hn.
    apply list_elem_of_In in Hx. tauto.
  - now apply NoDup_novel_entries.
Qed.

Lemma strv_append_unique_keeps_nodup_witness :
  NoDup (strv_entries (Some ["ro"; "flush"]))
  /\ NoDup (strv_entries (Some ["flush"; "sync"]))
  /\ NoDup
       (strv_entries
          (strv_append_unique (Some ["flush"; "sync"]) (Some ["ro"; "flush"]))).
Proof.
  assert (H1 : NoDup (strv_entries (Some ["ro"; "flush"]))).
  { apply (bool_decide_unpack _). reflexivity. }
  assert (H2 : NoDup (strv_entries (Some ["flush"; "sync"]))).
  { apply (bool_decide_unpack _). reflexivity. }
  split; [exact H1|]. split; [exact H2|].
  exact (strv_append_unique_keeps_nodup _ _ H1 H2).
Defined.

Lemma novel_entries_all_known (d s : list string) :
  (forall x, In x s -> In x d) -> novel_entries d s = [].
Proof.
  unfold novel_entries. induction s as [|a s IH]; intros H; [reflexivity|].
  cbn [List.filter].
  assert (Ha : g_strv_contains d a = true)
    by (apply g_strv_contains_spec, H; now left).
  rewrite Ha. cbn [negb]. apply IH. intros x Hx. apply H. now right.
Qed.

(** X3.  Appending the same source a second time changes nothing. *)
Theorem strv_append_unique_idempotent (src dest : option (list string)) :
  strv_append_unique src (strv_append_unique src dest)
  = strv_append_unique src dest.
Proof.
  destruct src as [[|a s]|]; try reflexivity.
  destruct dest as [d|].
  - assert (E : exists d', strv_append_unique (Some (a :: s)) (Some d) = Some d'
                           /\ forall x, In x (a :: s) -> In x d').
    { exists (strv_entries (strv_append_unique (Some (a :: s)) (Some d))).
      split.
      - unfold strv_append_unique.
        change (Nat.eqb (g_strv_length (a :: s)) 0) with false. cbv iota zeta.
        now destruct (Nat.ltb 0 _).
      - intros x Hx. apply strv_append_unique_in. now right. }
    destruct E as (d' & -> & Hall).
    unfold strv_append_unique at 1.
    change (Nat.eqb (g_strv_length (a :: s)) 0) with false. cbv iota zeta.
    change (List.filter (fun x => negb (g_strv_contains d' x)) (a :: s))
      with (novel_entries d' (a :: s)).
    now rewrite novel_entries_all_known.
  - change (strv_append_unique (Some (a :: s)) None) with (Some (a :: s)).
    unfold strv_append_unique.
    change (Nat.eqb (g_strv_length (a :: s)) 0) with false. cbv iota zeta.
    change (List.filter (fun x => negb (g_strv_contains (a :: s) x)) (a :: s))
      with (novel_entries (a :: s) (a :: s)).
    now rewrite novel_entries_self.
Qed.

(** X4.  Overrides compose with the later source winning member by member:
    overriding by [s1] and then by [s2] is overriding once by [s1]
    overridden by [s2]; overriding twice by the same source is overriding
    once; a source without any member changes nothing. *)
Theorem override_fs_mount_options_composes (s1 s2 dest : FSMountOptions) :
  override_fs_mount_options (Some s2)
    (override_fs_mount_options (Some s1) dest)
  = override_fs_mount_options
      (Some (override_fs_mount_options (Some s2) s1)) dest
  /\ override_fs_mount_options (Some s1)
       (override_fs_mount_options (Some s1) dest)
     = override_fs_mount_options (Some s1) dest
  /\ override_fs_mount_options (Some fsmo_zero) dest = dest.
Proof.
  destruct s1 as [[a1|] [b1|] [c1|] [d1|]], s2 as [[a2|] [b2|] [c2|] [d2|]],
    dest as [a b c d]; repeat split; reflexivity.
Qed.

(** * Further properties of the policy resolver *)

Lemma match_block_key_find (block : UDisksBlock) (keys : list string) :
  match_block_key keys (udisks_block_get_device block)
    (udisks_block_get_symlinks block)
  = List.find (block_key_matches block) keys.
Proof.
  induction keys as [|k ks IH]; [reflexivity|].
  cbn [match_block_key List.find]. unfold block_key_matches at 1.
  destruct (g_str_equal k MOUNT_OPTIONS_CONFIG_GROUP_DEFAULTS); cbn [negb andb];
    [exact IH|].
  destruct (g_str_equal k (udisks_block_get_device block) || _);
    [reflexivity | exact IH].
Qed.

Lemma g_hash_table_lookup_as_map (t : block_table) (k : string) :
  g_hash_table_lookup t k
  = (list_to_map t : gmap string (gmap string FSMountOptions)) !! k.
Proof.
  induction t as [|[k' v] t IH];
    [now rewrite list_to_map_nil, lookup_empty|].
  cbn [g_hash_table_lookup]. rewrite list_to_map_cons. unfold g_str_equal.
  destruct (String.eqb_spec k' k) as [->|Hne].
  - now rewrite lookup_insert_eq.
  - now rewrite lookup_insert_ne.
Qed.

Lemma find_unique_permutation {A} (p : A -> bool) (l l' : list A) :
  (forall x y, In x l -> In y l -> p x = true -> p y = true -> x = y) ->
  l ≡ₚ l' -> List.find p l = List.find p l'.
Proof.
  intros Huniq Hperm.
  assert (Hin : forall x, In x l <-> In x l').
  { intros x. rewrite <- !list_elem_of_In. now rewrite Hperm. }
  destruct (List.find p l) as [x|] eqn:E; destruct (List.find p l') as [y|] eqn:E'.
  - apply find_some in E as [Hx Hpx]. apply find_some in E' as [Hy Hpy].
    f_equal. apply Huniq; auto. now apply Hin.
  - apply find_some in E as [Hx Hpx].
    pose proof (find_none _ _ E' x (proj1 (Hin x) Hx)). congruence.
  - apply find_some in E' as [Hy Hpy].
    pose proof (find_none _ _ E y (proj2 (Hin y) Hy)). congruence.
  - reflexivity.
Qed.

(** X5.  Sections of other devices are never applied: when no key of the
    table passes the key test for the block, the call does what it does
    without a block, that is, it applies the general section only. *)
Theorem sections_of_other_devices_are_ignored (opts : block_table)
    (block : UDisksBlock) (fstype : option string)
    (fsmo fsmo_any : FSMountOptions) :
  (forall k, In k (g_hash_table_get_keys opts) ->
             block_key_matches block k = false) ->
  compute_block_level_mount_options opts (Some block) fstype fsmo fsmo_any
  = compute_block_level_mount_options opts None fstype fsmo fsmo_any.
Proof.
  intros H. unfold compute_block_level_mount_options.
  rewrite match_block_key_find.
  destruct (List.find _ _) as [k|] eqn:E; [|reflexivity].
  apply find_some in E as [Hin Hk]. rewrite (H k Hin) in Hk. discriminate.
Qed.

Lemma sections_of_other_devices_are_ignored_witness :
  (forall k, In k (g_hash_table_get_keys
                     [("defaults", {[ "vfat" := allow_only ["flush"] ]});
                      ("/dev/sdc1", {[ "vfat" := allow_only ["exec"] ]})]) ->
             block_key_matches usb_block k = false)
  /\ compute_block_level_mount_options
       [("defaults", {[ "vfat" := allow_only ["flush"] ]});
        ("/dev/sdc1", {[ "vfat" := allow_only ["exec"] ]})]
       (Some usb_block) (Some "vfat") fsmo_zero fsmo_zero
     = compute_block_level_mount_options
         [("defaults", {[ "vfat" := allow_only ["flush"] ]});
          ("/dev/sdc1", {[ "vfat" := allow_only ["exec"] ]})]
         None (Some "vfat") fsmo_zero fsmo_zero.
Proof.
  assert (H : forall k,
             In k (g_hash_table_get_keys
                     [("defaults", {[ "vfat" := allow_only ["flush"] ]});
                      ("/dev/sdc1", {[ "vfat" := allow_only ["exec"] ]})]) ->
             block_key_matches usb_block k = false).
  { intros k [<-|[<-|[]]]; reflexivity. }
  split; [exact H|].
  exact (sections_of_other_devices_are_ignored _ usb_block (Some "vfat")
           fsmo_zero fsmo_zero H).
Defined.

(** X6.  Inside one table the section of the device wins over the general
    section: with a general record [rg] and a device record [rd] for the
    file system type, the specific accumulator is overridden by [rg] and
    then by [rd], in whichever order the two sections are enumerated, and
    whether the section is keyed by the device path or by a symlink. *)
Theorem device_section_overrides_general_section (block : UDisksBlock)
    (key fstype : string) (rg rd fsmo fsmo_any : FSMountOptions)
    (opts : block_table) :
  block_key_matches block key = true ->
  fstype <> "defaults" ->
  opts = [("defaults", {[ fstype := rg ]}); (key, {[ fstype := rd ]})]
  \/ opts = [(key, {[ fstype := rd ]}); ("defaults", {[ fstype := rg ]})] ->
  compute_block_level_mount_options opts (Some block) (Some fstype)
    fsmo fsmo_any
  = (override_fs_mount_options (Some rd)
       (override_fs_mount_options (Some rg) fsmo),
     fsmo_any, true).
Proof.
  intros Hkey Hf Hopts.
  assert (Hne : g_str_equal key MOUNT_OPTIONS_CONFIG_GROUP_DEFAULTS = false).
  { unfold block_key_matches in Hkey. apply andb_true_iff in Hkey as [H _].
    now apply negb_true_iff in H. }
  assert (Hne' : fstype <> MOUNT_OPTIONS_CONFIG_GROUP_DEFAULTS) by exact Hf.
  assert (Hne2 : g_str_equal "defaults" key = false).
  { unfold g_str_equal in *. now rewrite String.eqb_sym. }
  assert (Hrefl : g_str_equal key key = true) by apply String.eqb_refl.
  unfold compute_block_level_mount_options. rewrite match_block_key_find.
  destruct Hopts as [-> | ->]; cbn [g_hash_table_lookup g_hash_table_get_keys
    fmap list_fmap fst List.find].
  - change (g_str_equal "defaults" MOUNT_OPTIONS_CONFIG_GROUP_DEFAULTS) with true.
    change (block_key_matches block "defaults") with false.
    rewrite Hkey. cbn [mbind option_bind g_hash_table_lookup].
    rewrite Hne2, Hrefl.
    rewrite override_from_table_singleton, decide_False by exact Hne'.
    rewrite override_from_table_singleton, decide_False by exact Hne'.
    reflexivity.
  - rewrite Hne, Hkey.
    change (g_str_equal "defaults" MOUNT_OPTIONS_CONFIG_GROUP_DEFAULTS) with true.
    cbn [mbind option_bind g_hash_table_lookup]. rewrite Hrefl.
    rewrite override_from_table_singleton, decide_False by exact Hne'.
    rewrite override_from_table_singleton, decide_False by exact Hne'.
    reflexivity.
Qed.

Lemma device_section_overrides_general_section_witness :
  block_key_matches usb_block "/dev/disk/by-label/STICK" = true
  /\ compute_block_level_mount_options
       [("/dev/disk/by-label/STICK", {[ "vfat" := allow_only ["exec"] ]});
        ("defaults", {[ "vfat" := allow_only ["flush"] ]})]
       (Some usb_block) (Some "vfat") fsmo_zero fsmo_zero
     = (allow_only ["exec"], fsmo_zero, true).
Proof.
  split; [reflexivity|].
  refine (device_section_overrides_general_section usb_block
            "/dev/disk/by-label/STICK" "vfat" (allow_only ["flush"])
            (allow_only ["exec"]) fsmo_zero fsmo_zero _ eq_refl _
            (or_intror eq_refl)).
  discriminate.
Defined.

(** X7.  The outcome does not depend on the order in which the hash table
    enumerates its keys, as long as at most one key passes the key test
    for the block: two enumerations of the same bindings give the same
    accumulators and flag. *)
Theorem block_level_options_independent_of_key_order
    (opts opts' : block_table) (block : option UDisksBlock)
    (fstype : option string) (fsmo fsmo_any : FSMountOptions) :
  NoDup (g_hash_table_get_keys opts) ->
  opts ≡ₚ opts' ->
  (forall b k1 k2,
      block = Some b ->
      In k1 (g_hash_table_get_keys opts) ->
      In k2 (g_hash_table_get_keys opts) ->
      block_key_matches b k1 = true -> block_key_matches b k2 = true ->
      k1 = k2) ->
  compute_block_level_mount_options opts block fstype fsmo fsmo_any
  = compute_block_level_mount_options opts' block fstype fsmo fsmo_any.
Proof.
  intros Hnd Hperm Huniq.
  assert (Hlook : forall k, g_hash_table_lookup opts k
                            = g_hash_table_lookup opts' k).
  { intros k. rewrite !g_hash_table_lookup_as_map.
    now rewrite (list_to_map_proper opts opts' Hnd Hperm). }
  unfold compute_block_level_mount_options. rewrite Hlook.
  destruct block as [b|]; [|reflexivity].
  rewrite !match_block_key_find.
  rewrite (find_unique_permutation (block_key_matches b)
             (g_hash_table_get_keys opts) (g_hash_table_get_keys opts')).
  - destruct (List.find _ _) as [k|]; cbn [mbind option_bind];
      [rewrite Hlook|]; reflexivity.
  - intros x y Hx Hy. now apply (Huniq b).
  - unfold g_hash_table_get_keys. now rewrite Hperm.
Qed.

Lemma block_level_options_independent_of_key_order_witness :
  compute_block_level_mount_options
    [("defaults", {[ "vfat" := allow_only ["flush"] ]});
     ("/dev/sdb1", {[ "vfat" := allow_only ["exec"] ]})]
    (Some usb_block) (Some "vfat") fsmo_zero fsmo_zero
  = compute_block_level_mount_options
      [("/dev/sdb1", {[ "vfat" := allow_only ["exec"] ]});
       ("defaults", {[ "vfat" := allow_only ["flush"] ]})]
      (Some usb_block) (Some "vfat") fsmo_zero fsmo_zero.
Proof.
  refine (block_level_options_independent_of_key_order _ _ (Some usb_block)
            (Some "vfat") fsmo_zero fsmo_zero _ _ _).
  - apply (bool_decide_unpack _). reflexivity.
  - apply perm_swap.
  - intros b k1 k2 Hb [<-|[<-|[]]] [<-|[<-|[]]] H1 H2;
      inversion Hb; subst b; try reflexivity; discriminate.
Defined.

Lemma override_from_table_no_fstype t fsmo fsmo_any changed :
  (override_from_table t None (fsmo, fsmo_any, changed)).1.1 = fsmo.
Proof. reflexivity. Qed.

Lemma block_level_no_fstype opts block fsmo fsmo_any :
  (compute_block_level_mount_options opts block None fsmo fsmo_any).1.1 = fsmo.
Proof.
  unfold compute_block_level_mount_options.
  destruct (g_hash_table_lookup opts _) as [g|];
    destruct (match block with Some _ => _ | None => _ end) as [bo|];
    reflexivity.
Qed.

(** X8.  Without a file system type only the general records are looked
    up: the specific accumulator stays empty through all three origins,
    and the effective record has the entries of the general accumulator. *)
Theorem no_fstype_gives_general_policy (daemon : UDisksDaemon)
    (builtin : block_table) (block : UDisksBlock)
    (fsmo fsmo_any : FSMountOptions) (changed : bool) :
  builtin_opts daemon = Some builtin ->
  accumulate_origins daemon builtin block None = (fsmo, fsmo_any, changed) ->
  fsmo = fsmo_zero
  /\ exists r,
       compute_mount_options_for_fs_type daemon block None = Some r
       /\ forall m, In m fsmo_members ->
            strv_entries (m r) = strv_entries (m fsmo_any).
Proof.
  intros Hb Hacc.
  assert (Hz : fsmo = fsmo_zero).
  { unfold accumulate_origins in Hacc.
    pose proof (block_level_no_fstype builtin (Some block) fsmo_zero fsmo_zero)
      as H1.
    destruct (compute_block_level_mount_options builtin _ None _ _)
      as [[f1 a1] c1]. simpl in H1. subst f1.
    assert (H2 : forall x, x = match config_file_opts daemon with
                     | Some overrides =>
                         compute_block_level_mount_options overrides
                           (Some block) None fsmo_zero a1
                     | None => (fsmo_zero, a1, false)
                     end -> x.1.1 = fsmo_zero).
    { intros x ->. destruct (config_file_opts daemon) as [o|]; [|reflexivity].
      apply block_level_no_fstype. }
    destruct (match config_file_opts daemon with Some _ => _ | None => _ end)
      as [[f2 a2] c2] eqn:E2.
    specialize (H2 _ eq_refl). simpl in H2. subst f2.
    destruct (udev_device block) as [dev|]; inversion Hacc; reflexivity. }
  split; [exact Hz|]. subst fsmo.
  unfold compute_mount_options_for_fs_type. rewrite Hb, Hacc.
  eexists. split; [reflexivity|].
  unfold fsmo_members. intros m Hm. cbn [In] in Hm.
  destruct Hm as [<-|[<-|[<-|[<-|[]]]]];
    cbn [append_fs_mount_options defaults allow allow_uid_self allow_gid_self
           fsmo_zero];
    rewrite strv_append_unique_entries;
    change (strv_entries None) with (@nil string);
    now rewrite novel_entries_nil_l.
Qed.

Lemma no_fstype_gives_general_policy_witness :
  accumulate_origins bare_defaults_daemon
    [("defaults",
      {[ "defaults" :=
           mkFSMountOptions (Some ["uid"; "gid"; "shortname=mixed"])
             None None None;
         "vfat" := mkFSMountOptions None (Some vfat_allow) None None ]})]
    plain_block None
  = (fsmo_zero, defaults_only ["uid"; "gid"; "shortname=mixed"], false)
  /\ exists r,
       compute_mount_options_for_fs_type bare_defaults_daemon plain_block None
       = Some r
       /\ forall m, In m fsmo_members ->
            strv_entries (m r)
            = strv_entries (m (defaults_only ["uid"; "gid"; "shortname=mixed"])).
Proof.
  split; [reflexivity|].
  exact (proj2 (no_fstype_gives_general_policy bare_defaults_daemon _
                  plain_block fsmo_zero
                  (defaults_only ["uid"; "gid"; "shortname=mixed"]) false
                  eq_refl eq_refl)).
Defined.

(** * Properties of the policy loader *)

Lemma string_length_app (a b : string) :
  String.length (a ++ b) = (String.length a + String.length b)%nat.
Proof.
  induction a as [|c a IH]; [reflexivity|].
  rewrite string_app_cons. cbn [String.length]. now rewrite IH.
Qed.

Lemma str_offset_app_length (p s : string) :
  str_offset (p ++ s) (String.length p) = s.
Proof.
  induction p as [|c p IH]; [reflexivity|].
  rewrite string_app_cons. exact IH.
Qed.

Lemma str_offset_add (s : string) (a b : nat) :
  str_offset s (a + b) = str_offset (str_offset s a) b.
Proof.
  revert s. induction a as [|a IH]; intros s; [reflexivity|].
  destruct s as [|c s]; cbn [str_offset Nat.add].
  - now destruct b.
  - apply IH.
Qed.

Lemma g_strndup_str_offset (s : string) (n : nat) :
  g_strndup s n ++ str_offset s n = s.
Proof.
  revert s. induction n as [|n IH]; intros s; [reflexivity|].
  destruct s as [|c s]; [reflexivity|].
  cbn [g_strndup str_offset]. now rewrite string_app_cons, IH.
Qed.

Lemma str_tail_app (p s : string) (n : nat) :
  (n <= String.length s)%nat -> str_tail (p ++ s) n = str_tail s n.
Proof.
  intros H. unfold str_tail. rewrite string_length_app.
  replace (String.length p + String.length s - n)%nat
    with (String.length p + (String.length s - n))%nat by lia.
  now rewrite str_offset_add, str_offset_app_length.
Qed.

Lemma g_str_has_suffix_spec (s suffix : string) :
  g_str_has_suffix s suffix = true <-> exists p, s = p ++ suffix.
Proof.
  unfold g_str_has_suffix, g_str_equal. rewrite andb_true_iff. split.
  - intros [_ H]. apply String.eqb_eq in H.
    exists (g_strndup s (String.length s - String.length suffix)).
    rewrite <- (g_strndup_str_offset s (String.length s - String.length suffix))
      at 1.
    f_equal. exact H.
  - intros [p ->]. rewrite string_length_app. split.
    + apply Nat.leb_le. lia.
    + replace (String.length p + String.length suffix - String.length suffix)%nat
        with (String.length p) by lia.
      rewrite str_offset_app_length. apply String.eqb_refl.
Qed.

(** Two ways of writing one string end in the same bytes. *)
Lemma same_string_same_tail (p a q b : string) (n : nat) :
  p ++ a = q ++ b ->
  (n <= String.length a)%nat -> (n <= String.length b)%nat ->
  str_tail a n = str_tail b n.
Proof.
  intros E Ha Hb. rewrite <- (str_tail_app p a n Ha), E. now apply str_tail_app.
Qed.

Lemma app_neq_by_tail (p a name : string) :
  str_tail name (String.length a) <> a -> p ++ a <> name.
Proof.
  intros H E. apply H. rewrite <- E.
  rewrite str_tail_app by lia. unfold str_tail.
  now rewrite Nat.sub_diag.
Qed.

Lemma no_suffix_by_tail (p a b : string) (n : nat) :
  (n <= String.length a)%nat -> (n <= String.length b)%nat ->
  str_tail a n <> str_tail b n ->
  g_str_has_suffix (p ++ a) b = false.
Proof.
  intros Ha Hb Hne. destruct (g_str_has_suffix (p ++ a) b) eqn:E; [|reflexivity].
  apply g_str_has_suffix_spec in E as [q E].
  exfalso. apply Hne. exact (same_string_same_tail p a q b n E Ha Hb).
Qed.

Lemma has_suffix_app (p a : string) : g_str_has_suffix (p ++ a) a = true.
Proof. apply g_str_has_suffix_spec. now exists p. Qed.

Lemma g_strndup_prefix_of_key (fs g : string) :
  g_strndup (fs ++ "_" ++ g)
    (String.length (fs ++ "_" ++ g) - String.length g - 1)
  = fs.
Proof.
  rewrite string_length_app.
  change (String.length ("_" ++ g)) with (S (String.length g)).
  replace (String.length fs + S (String.length g) - String.length g - 1)%nat
    with (String.length fs) by lia.
  apply g_strndup_app.
Qed.

Lemma extract_fs_type_of_suffixed_key (fs g : string) :
  In g mount_options_keys -> extract_fs_type (fs ++ "_" ++ g) = Some (fs, g).
Proof.
  intros Hg. unfold extract_fs_type, TEST_AND_RETURN_GROUP, g_str_equal.
  assert (Hex : forall name, In name mount_options_keys ->
                  String.eqb (fs ++ "_" ++ g) name = false).
  { intros name Hn. apply String.eqb_neq, app_neq_by_tail.
    unfold mount_options_keys in Hg, Hn. cbn [In] in Hg, Hn.
    destruct Hg as [<-|[<-|[<-|[<-|[]]]]], Hn as [<-|[<-|[<-|[<-|[]]]]];
      vm_compute; discriminate. }
  rewrite !Hex by (unfold mount_options_keys; cbn [In]; tauto).
  cbn [orb].
  unfold mount_options_keys in Hg. cbn [In] in Hg.
  destruct Hg as [<-|[<-|[<-|[<-|[]]]]].
  - rewrite (no_suffix_by_tail fs _ _ 9), (no_suffix_by_tail fs _ _ 9),
      (no_suffix_by_tail fs _ _ 6)
      by (vm_compute; first [lia | discriminate]).
    rewrite has_suffix_app. now rewrite g_strndup_prefix_of_key.
  - rewrite (no_suffix_by_tail fs _ _ 6), (no_suffix_by_tail fs _ _ 6)
      by (vm_compute; first [lia | discriminate]).
    rewrite has_suffix_app. now rewrite g_strndup_prefix_of_key.
  - rewrite has_suffix_app. now rewrite g_strndup_prefix_of_key.
  - rewrite (no_suffix_by_tail fs _ _ 15)
      by (vm_compute; first [lia | discriminate]).
    rewrite has_suffix_app. now rewrite g_strndup_prefix_of_key.
Qed.

Lemma extract_fs_type_sound (key fs g : string) :
  extract_fs_type key = Some (fs, g) ->
  (In key mount_options_keys /\ fs = "defaults" /\ g = key)
  \/ (In g mount_options_keys /\ key = fs ++ "_" ++ g).
Proof.
  unfold extract_fs_type, g_str_equal.
  destruct (String.eqb_spec key MOUNT_OPTIONS_KEY_DEFAULTS) as [->|_];
    [intros H; inversion H; left; vm_compute; tauto|].
  destruct (String.eqb_spec key MOUNT_OPTIONS_KEY_ALLOW) as [->|_];
    [intros H; inversion H; left; vm_compute; tauto|].
  destruct (String.eqb_spec key MOUNT_OPTIONS_KEY_ALLOW_UID_SELF) as [->|_];
    [intros H; inversion H; left; vm_compute; tauto|].
  destruct (String.eqb_spec key MOUNT_OPTIONS_KEY_ALLOW_GID_SELF) as [->|_];
    [intros H; inversion H; left; vm_compute; tauto|].
  cbn [orb]. unfold TEST_AND_RETURN_GROUP.
  assert (Hs : forall name,
             g_str_has_suffix key ("_" ++ name) = true ->
             key = g_strndup key (String.length key - String.length name - 1)
                   ++ "_" ++ name).
  { intros name H. apply g_str_has_suffix_spec in H as [p ->].
    now rewrite g_strndup_prefix_of_key. }
  destruct (g_str_has_suffix key ("_" ++ MOUNT_OPTIONS_KEY_ALLOW_UID_SELF))
    eqn:E1.
  { intros H; inversion H; subst. right. split; [vm_compute; tauto|].
    exact (Hs MOUNT_OPTIONS_KEY_ALLOW_UID_SELF E1). }
  destruct (g_str_has_suffix key ("_" ++ MOUNT_OPTIONS_KEY_ALLOW_GID_SELF))
    eqn:E2.
  { intros H; inversion H; subst. right. split; [vm_compute; tauto|].
    exact (Hs MOUNT_OPTIONS_KEY_ALLOW_GID_SELF E2). }
  destruct (g_str_has_suffix key ("_" ++ MOUNT_OPTIONS_KEY_ALLOW)) eqn:E3.
  { intros H; inversion H; subst. right. split; [vm_compute; tauto|].
    exact (Hs MOUNT_OPTIONS_KEY_ALLOW E3). }
  destruct (g_str_has_suffix key ("_" ++ MOUNT_OPTIONS_KEY_DEFAULTS)) eqn:E4.
  { intros H; inversion H; subst. right. split; [vm_compute; tauto|].
    exact (Hs MOUNT_OPTIONS_KEY_DEFAULTS E4). }
  discriminate.
Qed.

(** X9.  [extract_fs_type] reads a key in exactly two ways.  One of the
    four names [defaults], [allow], [allow_uid_self], [allow_gid_self]
    alone stands for the record of any file system type (["defaults"]);
    a key [<fs>_<name>] stands for member [<name>] of file system type
    [<fs>], whatever [<fs>] is, the longer name winning when one name
    ends another ([x_allow_uid_self] is [allow_uid_self] of [x]).  Every
    other key is refused. *)
Theorem extract_fs_type_reads_keys (key fs g : string) :
  extract_fs_type key = Some (fs, g)
  <-> (In key mount_options_keys /\ fs = "defaults" /\ g = key)
      \/ (In g mount_options_keys /\ key = fs ++ "_" ++ g).
Proof.
  split; [apply extract_fs_type_sound|].
  intros [(Hk & -> & ->) | (Hg & ->)].
  - unfold mount_options_keys in Hk. cbn [In] in Hk.
    destruct Hk as [<-|[<-|[<-|[<-|[]]]]]; reflexivity.
  - now apply extract_fs_type_of_suffixed_key.
Qed.

Lemma extract_fs_type_group (key fs g : string) :
  extract_fs_type key = Some (fs, g) -> In g mount_options_keys.
Proof.
  intros H. apply extract_fs_type_sound in H as [(Hk & _ & ->)|[Hg _]];
    assumption.
Qed.

Lemma parse_key_value_pair_member
    (tokenizer : string -> list (string * option string) * Z)
    (table : gmap string FSMountOptions) (key value : string) :
  (extract_fs_type key = None ->
   parse_key_value_pair tokenizer table key value = table)
  /\ (forall fs g,
        extract_fs_type key = Some (fs, g) ->
        (forall fs', fs' <> fs ->
           parse_key_value_pair tokenizer table key value !! fs'
           = table !! fs')
        /\ exists r,
             parse_key_value_pair tokenizer table key value !! fs = Some r
             /\ forall g', In g' mount_options_keys ->
                  member_named g' r
                  = if decide (g' = g)
                    then parse_mount_options_string tokenizer (Some value)
                    else member_named g' (default fsmo_zero (table !! fs))).
Proof.
  split.
  - intros H. unfold parse_key_value_pair. now rewrite H.
  - intros fs g H. pose proof (extract_fs_type_group key fs g H) as Hg.
    unfold parse_key_value_pair. rewrite H. split.
    + intros fs' Hne. now rewrite lookup_insert_ne.
    + rewrite lookup_insert_eq. eexists. split; [reflexivity|].
      intros g' Hg'.
      unfold mount_options_keys in Hg, Hg'. cbn [In] in Hg, Hg'.
      destruct Hg as [<-|[<-|[<-|[<-|[]]]]],
               Hg' as [<-|[<-|[<-|[<-|[]]]]]; reflexivity.
Qed.

(** X10.  [parse_key_value_pair] touches one member of one record: for a
    key that [extract_fs_type] reads as member [g] of file system type
    [fs], the records of the other file system types are as before, and
    the record of [fs] (created empty when there was none) has member [g]
    set to the parsed value, NULL when the tokenizer fails, and its other
    members as before.  A key that [extract_fs_type] refuses leaves the
    table as it is. *)
Theorem parse_key_value_pair_sets_one_member
    (tokenizer : string -> list (string * option string) * Z)
    (table : gmap string FSMountOptions) (key value : string) :
  (extract_fs_type key = None ->
   parse_key_value_pair tokenizer table key value = table)
  /\ (forall fs g,
        extract_fs_type key = Some (fs, g) ->
        (forall fs', fs' <> fs ->
           parse_key_value_pair tokenizer table key value !! fs'
           = table !! fs')
        /\ exists r,
             parse_key_value_pair tokenizer table key value !! fs = Some r
             /\ forall g', In g' mount_options_keys ->
                  member_named g' r
                  = if decide (g' = g)
                    then parse_mount_options_string tokenizer (Some value)
                    else member_named g' (default fsmo_zero (table !! fs))).
Proof.
  split.
  - intros H. unfold parse_key_value_pair. now rewrite H.
  - intros fs g H. pose proof (extract_fs_type_group key fs g H) as Hg.
    unfold parse_key_value_pair. rewrite H. split.
    + intros fs' Hne. now rewrite lookup_insert_ne.
    + rewrite lookup_insert_eq. eexists. split; [reflexivity|].
      intros g' Hg'.
      unfold mount_options_keys in Hg, Hg'. cbn [In] in Hg, Hg'.
      destruct Hg as [<-|[<-|[<-|[<-|[]]]]],
               Hg' as [<-|[<-|[<-|[<-|[]]]]]; reflexivity.
Qed.

Lemma parse_key_value_pair_sets_one_member_witness :
  extract_fs_type "vfat_allow" = Some ("vfat", "allow")
  /\ (forall fs', fs' <> "vfat" ->
        parse_key_value_pair whole_string_tokenizer
          {[ "ext4" := allow_only ["discard"] ]} "vfat_allow" "flush" !! fs'
        = ({[ "ext4" := allow_only ["discard"] ]}
             : gmap string FSMountOptions) !! fs').
Proof.
  split; [reflexivity|].
  exact (proj1 (proj2 (parse_key_value_pair_sets_one_member
                         whole_string_tokenizer
                         {[ "ext4" := allow_only ["discard"] ]}
                         "vfat_allow" "flush")
                  "vfat" "allow" eq_refl)).
Defined.

(** X11.  A key given twice keeps the later value only: parsing the same
    key with [v1] and then with [v2] gives the table that parsing it once
    with [v2] gives. *)
Theorem parse_key_value_pair_later_value_wins
    (tokenizer : string -> list (string * option string) * Z)
    (table : gmap string FSMountOptions) (key v1 v2 : string) :
  parse_key_value_pair tokenizer
    (parse_key_value_pair tokenizer table key v1) key v2
  = parse_key_value_pair tokenizer table key v2.
Proof.
  unfold parse_key_value_pair.
  destruct (extract_fs_type key) as [[fs g]|]; [|reflexivity].
  rewrite lookup_insert_eq, insert_insert_eq. cbn [default from_option id].
  f_equal.
  destruct (g_str_equal g MOUNT_OPTIONS_KEY_ALLOW_UID_SELF); [reflexivity|].
  destruct (g_str_equal g MOUNT_OPTIONS_KEY_ALLOW_GID_SELF); [reflexivity|].
  destruct (g_str_equal g MOUNT_OPTIONS_KEY_ALLOW); [reflexivity|].
  destruct (g_str_equal g MOUNT_OPTIONS_CONFIG_GROUP_DEFAULTS); reflexivity.
Qed.

Lemma parse_group_unroll tokenizer (k : string) (ks : list string)
    (get : string -> option string) :
  mount_options_parse_group tokenizer (mkGKeyFileGroup (k :: ks) get)
  = match get k with
    | None => mount_options_parse_group tokenizer (mkGKeyFileGroup ks get)
    | Some value =>
        parse_key_value_pair tokenizer
          (mount_options_parse_group tokenizer (mkGKeyFileGroup ks get))
          (g_ascii_strdown k) value
    end.
Proof.
  unfold mount_options_parse_group.
  cbn [g_key_file_get_keys g_key_file_get_string rev].
  now rewrite fold_left_app.
Qed.

(** X12.  In a group the first key decides: the keys are applied from the
    last to the first, each under its lower-case spelling, so the member
    that the first key of the group names holds the value of that key,
    whatever the keys after it are (also a later key that differs from it
    only by case). *)
Theorem parse_group_first_key_decides
    (tokenizer : string -> list (string * option string) * Z)
    (k : string) (ks : list string) (get : string -> option string)
    (value fs g : string) :
  get k = Some value ->
  extract_fs_type (g_ascii_strdown k) = Some (fs, g) ->
  exists r,
    mount_options_parse_group tokenizer (mkGKeyFileGroup (k :: ks) get) !! fs
    = Some r
    /\ member_named g r = parse_mount_options_string tokenizer (Some value).
Proof.
  intros Hv Hk. rewrite parse_group_unroll, Hv.
  destruct (proj2 (parse_key_value_pair_member tokenizer
                     (mount_options_parse_group tokenizer
                        (mkGKeyFileGroup ks get))
                     (g_ascii_strdown k) value) fs g Hk)
    as [_ (r & Hr & Hm)].
  exists r. split; [exact Hr|].
  rewrite (Hm g (extract_fs_type_group _ _ _ Hk)).
  now rewrite decide_True.
Qed.

Lemma parse_group_first_key_decides_witness :
  exists r,
    mount_options_parse_group whole_string_tokenizer
      (mkGKeyFileGroup ["VFAT_Allow"; "vfat_allow"]
         (fun k => if String.eqb k "VFAT_Allow" then Some "flush"
                   else Some "exec")) !! "vfat"
    = Some r
    /\ member_named "allow" r
       = parse_mount_options_string whole_string_tokenizer (Some "flush").
Proof.
  exact (parse_group_first_key_decides whole_string_tokenizer "VFAT_Allow"
           ["vfat_allow"] _ "flush" "vfat" "allow" eq_refl eq_refl).
Defined.

Lemma parse_key_file_fold tokenizer (key_file : GKeyFile) :
  fold_left
    (fun (mount_options : gmap string (gmap string FSMountOptions))
         (g : string * GKeyFileGroup) =>
       <[g.1 := mount_options_parse_group tokenizer g.2]> mount_options)
    (rev key_file) ∅
  = list_to_map
      (prod_map id (mount_options_parse_group tokenizer) <$> key_file).
Proof.
  induction key_file as [|[name g] kf IH]; [reflexivity|].
  cbn [rev]. rewrite fold_left_app. cbn [fold_left]. rewrite IH.
  reflexivity.
Qed.

(** X13.  [mount_options_parse_key_file] fails with
    [UDISKS_ERROR_NOT_SUPPORTED] on a key file without groups and on
    nothing else; otherwise the table it returns maps each group name to
    what [mount_options_parse_group] makes of that group, and no other
    name to anything. *)
Theorem parse_key_file_maps_every_group
    (tokenizer : string -> list (string * option string) * Z)
    (key_file : GKeyFile) :
  NoDup key_file.*1 ->
  (key_file = [] ->
   mount_options_parse_key_file tokenizer key_file
   = inl UDISKS_ERROR_NOT_SUPPORTED)
  /\ (key_file <> [] ->
      exists table,
        mount_options_parse_key_file tokenizer key_file = inr table
        /\ (forall name g,
              In (name, g) key_file ->
              table !! name = Some (mount_options_parse_group tokenizer g))
        /\ (forall name, ~ In name key_file.*1 -> table !! name = None)).
Proof.
  intros Hnd. split; [intros ->; reflexivity|].
  intros Hne. unfold mount_options_parse_key_file.
  destruct key_file as [|g0 kf]; [congruence|].
  rewrite parse_key_file_fold. eexists. split; [reflexivity|].
  set (l := prod_map id (mount_options_parse_group tokenizer) <$> g0 :: kf).
  assert (Hfst : l.*1 = (g0 :: kf).*1).
  { unfold l. rewrite <- list_fmap_compose. apply list_fmap_ext.
    now intros i [a b]. }
  split.
  - intros name g Hin. apply elem_of_list_to_map; [now rewrite Hfst|].
    unfold l. apply list_elem_of_fmap. exists (name, g).
    split; [reflexivity | now apply list_elem_of_In].
  - intros name Hno. apply not_elem_of_list_to_map. rewrite Hfst.
    intros H. apply Hno. now apply list_elem_of_In.
Qed.

Lemma parse_key_file_maps_every_group_witness :
  NoDup [("defaults", mkGKeyFileGroup [] (fun _ => None))].*1
  /\ exists table,
       mount_options_parse_key_file whole_string_tokenizer
         [("defaults", mkGKeyFileGroup [] (fun _ => None))]
       = inr table
       /\ (forall name g,
             In (name, g) [("defaults", mkGKeyFileGroup [] (fun _ => None))] ->
             table !! name
             = Some (mount_options_parse_group whole_string_tokenizer g))
       /\ (forall name,
             ~ In name [("defaults", mkGKeyFileGroup [] (fun _ => None))].*1 ->
             table !! name = None).
Proof.
  assert (H : NoDup [("defaults", mkGKeyFileGroup [] (fun _ => None))].*1).
  { apply (bool_decide_unpack _). reflexivity. }
  split; [exact H|].
  refine (proj2 (parse_key_file_maps_every_group whole_string_tokenizer
                   [("defaults", mkGKeyFileGroup [] (fun _ => None))] H) _).
  discriminate.
Defined.

(** X14.  [udisks_linux_mount_options_get_builtin] returns a table exactly
    when the resource could be loaded and has a group named [defaults];
    the table it returns has that section. *)
Theorem builtin_table_needs_defaults_group
    (tokenizer : string -> list (string * option string) * Z)
    (resource : option GKeyFile) :
  (is_Some (udisks_linux_mount_options_get_builtin tokenizer resource)
   <-> exists key_file, resource = Some key_file /\ In "defaults" key_file.*1)
  /\ (forall table,
        udisks_linux_mount_options_get_builtin tokenizer resource = Some table ->
        is_Some (table !! "defaults")).
Proof.
  assert (Hdom : forall key_file : GKeyFile,
             is_Some ((list_to_map
                         (prod_map id (mount_options_parse_group tokenizer)
                            <$> key_file)
                       : gmap string (gmap string FSMountOptions)) !! "defaults")
             <-> In "defaults" key_file.*1).
  { intros kf. induction kf as [|[name g] kf IH].
    - cbn. rewrite lookup_empty. split; [intros [? ?]; discriminate | tauto].
    - cbn [fmap list_fmap prod_map fst snd id In]. rewrite list_to_map_cons.
      destruct (decide (name = "defaults")) as [->|Hne].
      + rewrite lookup_insert_eq. split; eauto.
      + rewrite lookup_insert_ne by exact Hne. rewrite IH. cbn. tauto. }
  unfold udisks_linux_mount_options_get_builtin. split.
  - destruct resource as [kf|];
      [|split; [intros [? ?]; discriminate | intros (? & ? & _); discriminate]].
    destruct kf as [|g0 kf].
    + cbn. split; [intros [? ?]; discriminate | intros (? & E & H)].
      inversion E; subst. destruct H.
    + unfold mount_options_parse_key_file. rewrite parse_key_file_fold.
      case_bool_decide as Hd.
      * split; [|eauto]. intros _. exists (g0 :: kf). split; [reflexivity|].
        now apply Hdom.
      * split; [intros [? ?]; discriminate|].
        intros (kf' & E & H). inversion E; subst kf'. exfalso.
        apply Hd. now apply Hdom.
  - intros table. destruct resource as [kf|]; [|discriminate].
    destruct (mount_options_parse_key_file tokenizer kf) as [e|t];
      [discriminate|].
    case_bool_decide as Hd; [|discriminate]. intros E. inversion E; subst.
    exact Hd.
Qed.

Lemma builtin_table_needs_defaults_group_witness :
  is_Some
    (udisks_linux_mount_options_get_builtin whole_string_tokenizer
       (Some [("defaults", mkGKeyFileGroup [] (fun _ => None))]))
  <-> exists key_file : GKeyFile,
        Some [("defaults", mkGKeyFileGroup [] (fun _ => None))] = Some key_file
        /\ In "defaults" key_file.*1.
Proof.
  exact (proj1 (builtin_table_needs_defaults_group whole_string_tokenizer
                  (Some [("defaults", mkGKeyFileGroup [] (fun _ => None))]))).
Defined.

Lemma string_prefix_app (p s : string) : String.prefix p (p ++ s) = true.
Proof.
  induction p as [|c p IH]; [now destruct s|].
  rewrite string_app_cons. cbn [String.prefix].
  destruct (ascii_dec c c); [exact IH | congruence].
Qed.

Lemma g_ascii_strdown_app (a b : string) :
  g_ascii_strdown (a ++ b) = g_ascii_strdown a ++ g_ascii_strdown b.
Proof.
  induction a as [|c a IH]; [reflexivity|].
  rewrite string_app_cons. cbn [g_ascii_strdown].
  now rewrite IH, string_app_cons.
Qed.

Lemma udev_fold_filter tokenizer (get : string -> option string)
    (keys : list string) : forall acc : gmap string FSMountOptions,
  fold_left
    (fun (mount_options : gmap string FSMountOptions) (k : string) =>
       if g_str_has_prefix k UDEV_MOUNT_OPTIONS_PREFIX then
         match get k with
         | None => mount_options
         | Some value =>
             parse_key_value_pair tokenizer mount_options
               (g_ascii_strdown
                  (str_offset k (String.length UDEV_MOUNT_OPTIONS_PREFIX)))
               value
         end
       else mount_options)
    (List.filter
       (fun k => g_str_has_prefix k UDEV_MOUNT_OPTIONS_PREFIX
                 && bool_decide (is_Some (get k))) keys) acc
  = fold_left
      (fun (mount_options : gmap string FSMountOptions) (k : string) =>
         if g_str_has_prefix k UDEV_MOUNT_OPTIONS_PREFIX then
           match get k with
           | None => mount_options
           | Some value =>
               parse_key_value_pair tokenizer mount_options
                 (g_ascii_strdown
                    (str_offset k (String.length UDEV_MOUNT_OPTIONS_PREFIX)))
                 value
           end
         else mount_options)
      keys acc.
Proof.
  induction keys as [|k ks IH]; intros acc; [reflexivity|].
  cbn [List.filter fold_left].
  destruct (g_str_has_prefix k UDEV_MOUNT_OPTIONS_PREFIX) eqn:Hp;
    cbn [andb]; [|apply IH].
  destruct (get k) as [v|] eqn:Hv.
  - rewrite bool_decide_eq_true_2 by eauto. cbn [fold_left].
    rewrite Hp, Hv. apply IH.
  - rewrite bool_decide_eq_false_2 by (intros [? ?]; discriminate). apply IH.
Qed.

(** X15.  [mount_options_get_from_udev] fails with [UDISKS_ERROR_FAILED]
    without a udev device, and otherwise only looks at the properties
    whose name starts with [UDISKS_MOUNT_OPTIONS_], spelled in upper case,
    and whose value can be retrieved: the table is the one of the device
    with all other properties taken away, and it is empty when no property
    has the prefix. *)
Theorem udev_options_come_from_prefixed_properties
    (tokenizer : string -> list (string * option string) * Z) :
  mount_options_get_from_udev tokenizer None = inl UDISKS_ERROR_FAILED
  /\ (forall d : GUdevProperties,
        mount_options_get_from_udev tokenizer (Some d)
        = mount_options_get_from_udev tokenizer
            (Some
               (mkGUdevProperties
                  (List.filter
                     (fun k =>
                        g_str_has_prefix k UDEV_MOUNT_OPTIONS_PREFIX
                        && bool_decide
                             (is_Some (g_udev_device_get_property d k)))
                     (g_udev_device_get_property_keys d))
                  (g_udev_device_get_property d))))
  /\ (forall d : GUdevProperties,
        (forall k, In k (g_udev_device_get_property_keys d) ->
                   g_str_has_prefix k UDEV_MOUNT_OPTIONS_PREFIX = false) ->
        mount_options_get_from_udev tokenizer (Some d) = inr ∅).
Proof.
  split; [reflexivity|]. split.
  - intros d. unfold mount_options_get_from_udev.
    cbn [g_udev_device_get_property_keys g_udev_device_get_property].
    now rewrite udev_fold_filter.
  - intros d H. unfold mount_options_get_from_udev. f_equal.
    generalize (∅ : gmap string FSMountOptions).
    induction (g_udev_device_get_property_keys d) as [|k ks IH]; intros acc;
      [reflexivity|].
    cbn [fold_left]. rewrite (H k) by now left.
    apply IH. intros k' Hk'. apply H. now right.
Qed.

Lemma udev_options_come_from_prefixed_properties_witness :
  (forall k,
      In k (g_udev_device_get_property_keys
              (single_property "udisks_mount_options_vfat_allow" "exec")) ->
      g_str_has_prefix k UDEV_MOUNT_OPTIONS_PREFIX = false)
  /\ mount_options_get_from_udev whole_string_tokenizer
       (Some (single_property "udisks_mount_options_vfat_allow" "exec"))
     = inr ∅.
Proof.
  assert (H : forall k,
             In k (g_udev_device_get_property_keys
                     (single_property "udisks_mount_options_vfat_allow" "exec")) ->
             g_str_has_prefix k UDEV_MOUNT_OPTIONS_PREFIX = false).
  { intros k [<-|[]]. reflexivity. }
  split; [exact H|].
  exact (proj2 (proj2 (udev_options_come_from_prefixed_properties
                         whole_string_tokenizer)) _ H).
Defined.

(** X16.  A udev property [UDISKS_MOUNT_OPTIONS_<FS>_<NAME>] sets member
    [<name>] of file system type [<fs>], both taken in lower case: the
    prefix is cut off and the rest lowered before it is read as a key. *)
Theorem udev_property_sets_lower_case_member
    (tokenizer : string -> list (string * option string) * Z)
    (FS NAME g value : string) :
  g_ascii_strdown NAME = g ->
  In g mount_options_keys ->
  exists table r,
    mount_options_get_from_udev tokenizer
      (Some (single_property
               (UDEV_MOUNT_OPTIONS_PREFIX ++ FS ++ "_" ++ NAME) value))
    = inr table
    /\ table !! g_ascii_strdown FS = Some r
    /\ member_named g r = parse_mount_options_string tokenizer (Some value).
Proof.
  intros Hname Hg. unfold mount_options_get_from_udev, single_property.
  cbn [g_udev_device_get_property_keys g_udev_device_get_property fold_left].
  unfold g_str_has_prefix. rewrite string_prefix_app.
  rewrite str_offset_app_length, !g_ascii_strdown_app, Hname.
  change (g_ascii_strdown "_") with "_".
  destruct (proj2 (parse_key_value_pair_member tokenizer ∅
                     (g_ascii_strdown FS ++ "_" ++ g) value)
              (g_ascii_strdown FS) g
              (extract_fs_type_of_suffixed_key _ _ Hg))
    as [_ (r & Hr & Hm)].
  eexists. exists r. split; [reflexivity|]. split; [exact Hr|].
  rewrite (Hm g Hg). now rewrite decide_True.
Qed.

Lemma udev_property_sets_lower_case_member_witness :
  g_ascii_strdown "ALLOW" = "allow" /\ In "allow" mount_options_keys
  /\ exists table r,
       mount_options_get_from_udev whole_string_tokenizer
         (Some (single_property
                  (UDEV_MOUNT_OPTIONS_PREFIX ++ "VFAT" ++ "_" ++ "ALLOW")
                  "exec"))
       = inr table
       /\ table !! g_ascii_strdown "VFAT" = Some r
       /\ member_named "allow" r
          = parse_mount_options_string whole_string_tokenizer (Some "exec").
Proof.
  assert (H : In "allow" mount_options_keys) by (vm_compute; tauto).
  split; [reflexivity|]. split; [exact H|].
  exact (udev_property_sets_lower_case_member whole_string_tokenizer
           "VFAT" "ALLOW" "allow" "exec" eq_refl H).
Defined.

(** * Decimal numbers: what [%u] prints, [strtol] reads back *)

Lemma strtol_digits_of_uint (d : Decimal.uint) : forall acc seen,
  strtol_digits (NilEmpty.string_of_uint d) acc seen
  = (uint_value d acc,
     match d with Decimal.Nil => seen | _ => true end, "").
Proof.
  assert (T : forall d' : Decimal.uint,
             match d' with Decimal.Nil => true | _ => true end = true)
    by (now intros []).
  induction d as [|d IH|d IH|d IH|d IH|d IH|d IH|d IH|d IH|d IH|d IH];
    intros acc seen; [reflexivity|..];
    cbn [NilEmpty.string_of_uint strtol_digits uint_value];
    match goal with
    | |- context [digit_value ?c] =>
        let v := eval vm_compute in (digit_value c) in
        change (digit_value c) with v
    end; cbv iota; rewrite IH, T, ?Z.add_0_r; reflexivity.
Qed.

Lemma uint_value_of_lu (d : Decimal.uint) : forall acc,
  uint_value d acc
  = Z.of_N (DecimalPos.Unsigned.of_lu (Decimal.rev d))
    + acc * 10 ^ Z.of_N (DecimalPos.Unsigned.usize d).
Proof.
  induction d as [|d IH|d IH|d IH|d IH|d IH|d IH|d IH|d IH|d IH|d IH];
    intros acc;
    [cbn; lia|..];
    cbn [uint_value DecimalPos.Unsigned.usize]; rewrite IH;
    match goal with
    | |- context [Decimal.rev (?D d)] =>
        change (Decimal.rev (D d)) with (Decimal.revapp d (D Decimal.Nil));
        rewrite (DecimalPos.Unsigned.of_lu_revapp d (D Decimal.Nil))
    end;
    cbn [DecimalPos.Unsigned.of_lu]; rewrite N.mul_0_r, ?N.add_0_r;
    rewrite ?N2Z.inj_add, ?N2Z.inj_mul, ?N2Z.inj_pow, N2Z.inj_succ,
      Z.pow_succ_r by lia;
    cbn [Z.of_N]; ring.
Qed.

Lemma uint_value_to_uint (n : N) : uint_value (N.to_uint n) 0 = Z.of_N n.
Proof.
  rewrite uint_value_of_lu, Z.mul_0_l, Z.add_0_r.
  rewrite <- DecimalPos.Unsigned.of_uint_alt.
  change (Pos.of_uint (N.to_uint n)) with (N.of_uint (N.to_uint n)).
  now rewrite DecimalN.Unsigned.of_to.
Qed.

Lemma N_to_uint_not_nil (n : N) : N.to_uint n <> Decimal.Nil.
Proof.
  destruct n as [|p]; [discriminate|].
  apply DecimalPos.Unsigned.to_uint_nonnil.
Qed.

Lemma printf_u_as_digits (n : Z) :
  printf_u n = NilEmpty.string_of_uint (N.to_uint (Z.to_N (to_uint32 n))).
Proof.
  unfold printf_u, NilZero.string_of_uint.
  pose proof (N_to_uint_not_nil (Z.to_N (to_uint32 n))).
  now destruct (N.to_uint (Z.to_N (to_uint32 n))).
Qed.

Lemma string_of_uint_head (d : Decimal.uint) :
  d <> Decimal.Nil ->
  exists c r, NilEmpty.string_of_uint d = String c r /\ is_digit c = true.
Proof.
  destruct d; [congruence|..]; intros _; cbn [NilEmpty.string_of_uint];
    eexists; eexists; (split; [reflexivity|]); reflexivity.
Qed.

Lemma printf_u_head (n : Z) :
  exists c r, printf_u n = String c r /\ is_digit c = true.
Proof.
  rewrite printf_u_as_digits. apply string_of_uint_head, N_to_uint_not_nil.
Qed.

Lemma is_digit_facts (c : ascii) :
  is_digit c = true ->
  isspace c = false /\ c <> "-"%char /\ c <> "+"%char /\ c <> "001"%char.
Proof.
  destruct c as [[] [] [] [] [] [] [] []]; intros H;
    try (vm_compute in H; discriminate H);
    repeat split; try reflexivity; discriminate.
Qed.

Lemma to_uint32_range (n : Z) : 0 <= to_uint32 n < 2 ^ 32.
Proof. unfold to_uint32. apply Z.mod_pos_bound. lia. Qed.

Lemma to_uint32_small (n : Z) : 0 <= n < 2 ^ 32 -> to_uint32 n = n.
Proof. intros H. unfold to_uint32. now apply Z.mod_small. Qed.

Lemma strtol_printf_u (n : Z) : strtol (printf_u n) = (to_uint32 n, "").
Proof.
  pose proof (to_uint32_range n) as Hn.
  destruct (printf_u_head n) as (c & r & E & Hc).
  destruct (is_digit_facts c Hc) as (Hsp & Hm & Hp & _).
  unfold strtol. rewrite E. cbn [skip_spaces]. rewrite Hsp.
  assert (Hsign :
            match String c r with
            | String "-" r0 => (true, r0)
            | String "+" r0 => (false, r0)
            | _ => (false, String c r)
            end = (false, String c r)).
  { destruct c as [[] [] [] [] [] [] [] []]; try reflexivity; congruence. }
  rewrite Hsign, <- E, printf_u_as_digits, strtol_digits_of_uint.
  rewrite uint_value_to_uint, Z2N.id by lia.
  pose proof (N_to_uint_not_nil (Z.to_N (to_uint32 n))) as Hnil.
  destruct (N.to_uint (Z.to_N (to_uint32 n))); [congruence|..];
    (f_equal; unfold LONG_MIN, LONG_MAX in *; lia).
Qed.

(** * Further properties of the evaluator and the synthesizer *)

Lemma printf_u_not_sentinel (n : Z) :
  variant_value (printf_u n) = Some (printf_u n).
Proof.
  destruct (printf_u_head n) as (c & r & E & Hc).
  destruct (is_digit_facts c Hc) as (_ & _ & _ & Hs).
  unfold variant_value, g_str_equal. rewrite E.
  destruct (String.eqb_spec (String c r) VARIANT_NULL_STRING) as [H|_];
    [|reflexivity].
  inversion H. congruence.
Qed.

Lemma self_value_printf_u (n : Z) :
  0 <= n < 2 ^ 32 -> self_value (Some (printf_u n)) = Some n.
Proof.
  intros Hn. unfold self_value.
  destruct (printf_u_head n) as (c & r & E & _).
  rewrite E at 1. cbn [String.length Nat.eqb].
  now rewrite strtol_printf_u, to_uint32_small.
Qed.

Lemma in_strv_entries (f : FSMountOptions)
    (member : FSMountOptions -> option (list string)) (s : string) :
  in_strv (Some f ≫= member) s = true <-> In s (strv_entries (member f)).
Proof.
  cbn [mbind option_bind]. unfold in_strv, strv_entries.
  destruct (member f) as [l|]; cbn [default from_option id].
  - apply g_strv_contains_spec.
  - split; [discriminate | intros []].
Qed.

(** X17.  The self-match branches read a number the way the synthesizer
    writes it.  When the value is the decimal text of a 32-bit number and
    the exact token is not in [allow], an option of [allow_uid_self] is
    allowed for the caller with that user id and for no other caller, and
    an option of [allow_gid_self] that is not in [allow_uid_self] is
    allowed exactly when [is_uid_in_gid] holds of the caller and that
    group id. *)
Theorem printed_id_allowed_for_its_owner_only (daemon : UDisksDaemon)
    (f : FSMountOptions) (opt : string) (id caller_uid : Z) :
  0 <= id < 2 ^ 32 ->
  ~ In (opt ++ "=" ++ printf_u id) (strv_entries (allow f)) ->
  (In opt (strv_entries (allow_uid_self f)) ->
   is_mount_option_allowed daemon (Some f) opt (Some (printf_u id)) caller_uid
   = true
   <-> id = caller_uid)
  /\ (~ In opt (strv_entries (allow_uid_self f)) ->
      In opt (strv_entries (allow_gid_self f)) ->
      is_mount_option_allowed daemon (Some f) opt (Some (printf_u id))
        caller_uid
      = is_uid_in_gid daemon caller_uid id).
Proof.
  intros Hid Hexact.
  assert (E1 : in_strv (Some f ≫= allow) (opt ++ "=" ++ printf_u id) = false).
  { destruct (in_strv _ _) eqn:E; [|reflexivity].
    apply in_strv_entries in E. contradiction. }
  split.
  - intros Hin. unfold is_mount_option_allowed.
    rewrite E1, andb_false_r.
    rewrite (proj2 (in_strv_entries f allow_uid_self opt) Hin).
    rewrite self_value_printf_u, to_uint32_small by exact Hid.
    apply Z.eqb_eq.
  - intros Hnot Hin. unfold is_mount_option_allowed.
    rewrite E1, andb_false_r.
    assert (E2 : in_strv (Some f ≫= allow_uid_self) opt = false).
    { destruct (in_strv (Some f ≫= allow_uid_self) opt) eqn:E;
        [|reflexivity].
      apply in_strv_entries in E. contradiction. }
    rewrite E2, (proj2 (in_strv_entries f allow_gid_self opt) Hin).
    now rewrite self_value_printf_u, to_uint32_small by exact Hid.
Qed.

Lemma printed_id_allowed_for_its_owner_only_witness :
  0 <= 1001 < 2 ^ 32
  /\ ~ In ("uid" ++ "=" ++ printf_u 1001)
         (strv_entries (allow uid_self_record))
  /\ In "uid" (strv_entries (allow_uid_self uid_self_record))
  /\ (is_mount_option_allowed vfat_daemon (Some uid_self_record) "uid"
        (Some (printf_u 1001)) 1000
      = true
      <-> 1001 = 1000).
Proof.
  assert (H1 : 0 <= 1001 < 2 ^ 32) by lia.
  assert (H2 : ~ In ("uid" ++ "=" ++ printf_u 1001)
                  (strv_entries (allow uid_self_record)))
    by (intros []).
  assert (H3 : In "uid" (strv_entries (allow_uid_self uid_self_record)))
    by (now left).
  split; [exact H1|]. split; [exact H2|]. split; [exact H3|].
  exact (proj1 (printed_id_allowed_for_its_owner_only vfat_daemon
                  uid_self_record "uid" 1001 1000 H1 H2) H3).
Defined.

(** X18.  The entry that the synthesizer makes for the default [uid=]
    passes the validation whenever [uid] is in [allow_uid_self]: the
    number printed for the caller is read back as the caller's uid. *)
Theorem synthesized_uid_default_passes (daemon : UDisksDaemon)
    (f : FSMountOptions) (caller_uid : Z) (shared_fs : bool) :
  0 <= caller_uid < 2 ^ 32 ->
  In "uid" (strv_entries (allow_uid_self f)) ->
  default_entry daemon f caller_uid shared_fs "uid="
  = Some [("uid", printf_u caller_uid)]
  /\ entry_passes daemon (Some f) caller_uid ("uid", printf_u caller_uid).
Proof.
  intros Hu Hin. split; [reflexivity|].
  split; [reflexivity|]. cbn [fst snd].
  rewrite printf_u_not_sentinel. unfold is_mount_option_allowed.
  destruct (Nat.ltb 0 _ && _); [reflexivity|].
  rewrite (proj2 (in_strv_entries f allow_uid_self "uid") Hin).
  rewrite self_value_printf_u, to_uint32_small by exact Hu.
  apply Z.eqb_refl.
Qed.

Lemma synthesized_uid_default_passes_witness :
  0 <= 1000 < 2 ^ 32
  /\ In "uid" (strv_entries (allow_uid_self uid_self_record))
  /\ entry_passes vfat_daemon (Some uid_self_record) 1000
       ("uid", printf_u 1000).
Proof.
  assert (H1 : 0 <= 1000 < 2 ^ 32) by lia.
  assert (H2 : In "uid" (strv_entries (allow_uid_self uid_self_record)))
    by (now left).
  split; [exact H1|]. split; [exact H2|].
  exact (proj2 (synthesized_uid_default_passes vfat_daemon uid_self_record
                  1000 false H1 H2)).
Defined.

(** X19.  The default [gid=] is turned into the primary group of the
    caller, and that entry passes the validation whenever [gid] is in
    [allow_gid_self] and not in [allow_uid_self]; when the user database
    does not know the caller, the default gives no entry at all. *)
Theorem synthesized_gid_default_passes (daemon : UDisksDaemon)
    (f : FSMountOptions) (caller_uid : Z) (shared_fs : bool) :
  (forall gid user_name,
      udisks_daemon_util_get_user_info daemon caller_uid
      = Some (gid, user_name) ->
      0 <= gid < 2 ^ 32 ->
      In "gid" (strv_entries (allow_gid_self f)) ->
      ~ In "gid" (strv_entries (allow_uid_self f)) ->
      default_entry daemon f caller_uid shared_fs "gid="
      = Some [("gid", printf_u gid)]
      /\ entry_passes daemon (Some f) caller_uid ("gid", printf_u gid))
  /\ (udisks_daemon_util_get_user_info daemon caller_uid = None ->
      default_entry daemon f caller_uid shared_fs "gid=" = Some []).
Proof.
  split.
  - intros gid user_name Hinfo Hg Hin Hnot.
    assert (He : default_entry daemon f caller_uid shared_fs "gid="
                 = Some [("gid", printf_u gid)]).
    { unfold default_entry. cbn [strchr Ascii.eqb Bool.eqb fmap option_fmap
        option_map str_offset String.length Nat.ltb Nat.leb andb].
      change (strncmp_eq "gid=" "uid" 3) with false.
      change (strncmp_eq "gid=" "gid" 3) with true. cbv iota.
      now rewrite Hinfo. }
    split; [exact He|].
    split; [reflexivity|]. cbn [fst snd].
    rewrite printf_u_not_sentinel. unfold is_mount_option_allowed.
    destruct (Nat.ltb 0 _ && _); [reflexivity|].
    assert (Hu : in_strv (Some f ≫= allow_uid_self) "gid" = false).
    { destruct (in_strv (Some f ≫= allow_uid_self) "gid") eqn:E;
        [|reflexivity].
      apply in_strv_entries in E. contradiction. }
    rewrite Hu, (proj2 (in_strv_entries f allow_gid_self "gid") Hin).
    rewrite self_value_printf_u, to_uint32_small by exact Hg.
    unfold is_uid_in_gid. rewrite Hinfo. now rewrite Z.eqb_refl.
  - intros Hinfo. unfold default_entry.
    cbn [strchr Ascii.eqb Bool.eqb fmap option_fmap option_map str_offset
           String.length Nat.ltb Nat.leb andb].
    change (strncmp_eq "gid=" "uid" 3) with false.
    change (strncmp_eq "gid=" "gid" 3) with true. cbv iota.
    now rewrite Hinfo.
Qed.

Lemma synthesized_gid_default_passes_witness :
  udisks_daemon_util_get_user_info vfat_daemon 1000 = Some (1000, "alice")
  /\ entry_passes vfat_daemon
       (Some (mkFSMountOptions None None (Some ["uid"]) (Some ["gid"])))
       1000 ("gid", printf_u 1000).
Proof.
  split; [reflexivity|].
  refine (proj2 (proj1 (synthesized_gid_default_passes vfat_daemon
                          (mkFSMountOptions None None (Some ["uid"])
                             (Some ["gid"])) 1000 false)
                   1000 "alice" eq_refl _ _ _)).
  - lia.
  - now left.
  - intros [H|[]]. discriminate.
Defined.

(** X20.  [is_uid_in_gid] holds exactly for a user the database knows and
    a group that is his primary group or, when [getgrouplist] returns no
    more than the 128 groups the buffer takes, one of the groups returned:
    a user with more groups than that is in no group but the primary
    one. *)
Theorem is_uid_in_gid_spec (daemon : UDisksDaemon) (uid gid : Z) :
  is_uid_in_gid daemon uid gid = true
  <-> exists primary_gid user_name,
        udisks_daemon_util_get_user_info daemon uid
        = Some (primary_gid, user_name)
        /\ (primary_gid = gid
            \/ ((length (getgrouplist daemon user_name primary_gid) <= 128)%nat
                /\ In gid (getgrouplist daemon user_name primary_gid))).
Proof.
  unfold is_uid_in_gid.
  destruct (udisks_daemon_util_get_user_info daemon uid) as [[pg name]|];
    [|split; [discriminate | intros (? & ? & ? & _); discriminate]].
  destruct (Z.eqb_spec pg gid) as [->|Hne].
  { split; [|reflexivity]. intros _. exists gid, name. auto. }
  destruct (Nat.ltb_spec 128 (length (getgrouplist daemon name pg)))
    as [Hlt|Hle].
  - split; [discriminate|].
    intros (pg' & name' & E & [->|[Hlen _]]); inversion E; subst;
      [congruence | lia].
  - rewrite existsb_exists. split.
    + intros (x & Hx & Hxe). apply Z.eqb_eq in Hxe. subst x.
      exists pg, name. auto.
    + intros (pg' & name' & E & [->|[_ Hin]]); inversion E; subst;
        [congruence|].
      exists gid. split; [exact Hin | apply Z.eqb_refl].
Qed.

Lemma is_uid_in_gid_spec_witness :
  is_uid_in_gid vfat_daemon 1000 1000 = true
  <-> exists primary_gid user_name,
        udisks_daemon_util_get_user_info vfat_daemon 1000
        = Some (primary_gid, user_name)
        /\ (primary_gid = 1000
            \/ ((length (getgrouplist vfat_daemon user_name primary_gid)
                 <= 128)%nat
                /\ In 1000 (getgrouplist vfat_daemon user_name primary_gid))).
Proof. exact (is_uid_in_gid_spec vfat_daemon 1000 1000). Defined.

Lemma strncmp_eq_is_prefix (name : string) : forall (c : ascii) rest word,
  strncmp_eq (name ++ String c rest) word (String.length name)
  = String.prefix name word.
Proof.
  induction name as [|x name IH]; intros c rest word.
  - now destruct word.
  - rewrite string_app_cons. cbn [String.length strncmp_eq].
    destruct word as [|y word]; [reflexivity|].
    cbn [String.prefix].
    destruct (ascii_dec x y) as [->|Hne].
    + rewrite Ascii.eqb_refl. cbn [andb]. apply IH.
    + destruct (Ascii.eqb_spec x y); [congruence | reflexivity].
Qed.

(** X21.  The synthesizer compares the name of a default token with [uid],
    [gid], [mode] and [dmode] over the length of the name only.  For a
    token [name=value] that is not taken verbatim from [allow]: a name
    that begins [uid] (also the empty name, [u] and [ui]) gives the entry
    [uid=<caller uid>]; a name that begins none of the four words gives
    the token itself. *)
Theorem default_token_name_matched_as_prefix (daemon : UDisksDaemon)
    (f : FSMountOptions) (caller_uid : Z) (shared_fs : bool)
    (name value : string) :
  strchr name "=" = None ->
  Nat.ltb 0 (String.length value) && in_strv (allow f) (name ++ "=" ++ value)
  = false ->
  (String.prefix name "uid" = true ->
   default_entry daemon f caller_uid shared_fs (name ++ "=" ++ value)
   = Some [("uid", printf_u caller_uid)])
  /\ (String.prefix name "uid" = false ->
      String.prefix name "gid" = false ->
      String.prefix name "mode" = false ->
      String.prefix name "dmode" = false ->
      default_entry daemon f caller_uid shared_fs (name ++ "=" ++ value)
      = Some [(name, value)]).
Proof.
  intros Hname Hallow. unfold default_entry.
  change (name ++ "=" ++ value) with (name ++ String "=" value) in *.
  rewrite (strchr_app_found name value "=" Hname). cbv beta iota zeta.
  rewrite str_offset_past_separator, Hallow, !strncmp_eq_is_prefix,
    g_strndup_app.
  split.
  - intros ->. reflexivity.
  - intros -> -> -> ->. now rewrite !andb_false_r.
Qed.

Lemma default_token_name_matched_as_prefix_witness :
  strchr "u" "=" = None
  /\ default_entry vfat_daemon uid_self_record 1000 false ("u" ++ "=" ++ "5")
     = Some [("uid", printf_u 1000)].
Proof.
  split; [reflexivity|].
  exact (proj1 (default_token_name_matched_as_prefix vfat_daemon
                  uid_self_record 1000 false "u" "5" eq_refl eq_refl)
           eq_refl).
Defined.

(** * Further properties of whole requests *)

Lemma strsplit_pieces_not_nil (s : string) (d : ascii) :
  strsplit_pieces s d <> [].
Proof.
  destruct s as [|c s]; [discriminate|]. cbn [strsplit_pieces].
  destruct (Ascii.eqb c d); [discriminate|].
  destruct (strsplit_pieces s d); discriminate.
Qed.

Lemma strsplit_pieces_app (a b : string) (d : ascii) :
  strsplit_pieces (a ++ String d b) d
  = (strsplit_pieces a d ++ strsplit_pieces b d)%list.
Proof.
  induction a as [|c a IH].
  - rewrite string_app_nil_l. cbn [strsplit_pieces].
    now rewrite Ascii.eqb_refl.
  - rewrite string_app_cons. cbn [strsplit_pieces]. rewrite IH.
    destruct (Ascii.eqb c d); [reflexivity|].
    pose proof (strsplit_pieces_not_nil a d).
    destruct (strsplit_pieces a d); [congruence | reflexivity].
Qed.

Lemma strsplit_pieces_no_delim_inside (s : string) (d : ascii) :
  Forall (fun p => strchr p d = None) (strsplit_pieces s d).
Proof.
  induction s as [|c s IH]; [repeat constructor|].
  cbn [strsplit_pieces]. destruct (Ascii.eqb c d) eqn:E.
  - constructor; [reflexivity | exact IH].
  - destruct (strsplit_pieces s d) as [|p ps]; [repeat constructor|].
    + cbn [strchr]. now rewrite E.
    + inversion IH as [|? ? Hp Hps]; subst. constructor; [|exact Hps].
      cbn [strchr]. now rewrite E, Hp.
Qed.

Lemma strchr_none_g_strndup (s : string) (c : ascii) : forall n,
  strchr s c = None -> strchr (g_strndup s n) c = None.
Proof.
  induction s as [|x s IH]; intros n H; [now destruct n|].
  destruct n as [|n]; [reflexivity|]. cbn [g_strndup strchr] in *.
  destruct (Ascii.eqb x c); [discriminate|].
  destruct (strchr s c) eqn:E; [discriminate|]. now rewrite IH.
Qed.

Lemma strchr_none_str_offset (s : string) (c : ascii) : forall n,
  strchr s c = None -> strchr (str_offset s n) c = None.
Proof.
  induction s as [|x s IH]; intros n H; [now destruct n|].
  destruct n as [|n]; [exact H|]. cbn [str_offset]. apply IH.
  cbn [strchr] in H. destruct (Ascii.eqb x c); [discriminate|].
  now destruct (strchr s c).
Qed.

Lemma g_strndup_before_first (s : string) (c : ascii) : forall n,
  strchr s c = Some n -> strchr (g_strndup s n) c = None.
Proof.
  induction s as [|x s IH]; intros n H; [discriminate|].
  cbn [strchr] in H. destruct (Ascii.eqb x c) eqn:E.
  - inversion H. reflexivity.
  - destruct (strchr s c) as [m|] eqn:Em; [|discriminate].
    inversion H; subst. cbn [g_strndup strchr]. rewrite E.
    now rewrite (IH m eq_refl).
Qed.

Lemma given_entry_clean (p : string) :
  strchr p "," = None ->
  strchr (given_entry p).1 "," = None
  /\ strchr (given_entry p).2 "," = None
  /\ strchr (given_entry p).1 "=" = None.
Proof.
  intros Hp. unfold given_entry.
  destruct (strchr p "=") as [n|] eqn:E; cbn [fst snd].
  - split; [now apply strchr_none_g_strndup|].
    split; [now apply strchr_none_str_offset|].
    now apply g_strndup_before_first.
  - split; [exact Hp|]. split; [reflexivity | exact E].
Qed.

Lemma given_entries_clean (options : option string) (kv : string * string) :
  In kv (given_entries options) ->
  strchr kv.1 "," = None /\ strchr kv.2 "," = None /\ strchr kv.1 "=" = None.
Proof.
  destruct options as [s|]; [|intros []]. unfold given_entries.
  intros H. apply in_map_iff in H as (p & <- & Hp).
  apply given_entry_clean.
  assert (Hall : Forall (fun p => strchr p "," = None) (g_strsplit s ",")).
  { unfold g_strsplit. destruct s; [constructor|].
    apply strsplit_pieces_no_delim_inside. }
  rewrite Forall_forall in Hall. apply Hall. now apply list_elem_of_In.
Qed.

Lemma candidates_given daemon block uid fs_type options :
  candidates daemon block uid fs_type options
  = (fun ds => (ds ++ given_entries options)%list)
      <$> candidates daemon block uid fs_type None.
Proof.
  unfold candidates, prepend_default_mount_options.
  destruct (match effective_record daemon block fs_type with
            | Some f => _ | None => _ end) as [ds|]; [|reflexivity].
  cbn. now rewrite app_nil_r.
Qed.

Lemma not_allowed_is_not_malformed (k : string) (v : option string)
    (k' : string) :
  option_not_allowed k v <> malformed_option k'.
Proof.
  unfold option_not_allowed, malformed_option. intros H.
  destruct v; inversion H.
Qed.

(** X22.  No entry made from the option string of the caller has a comma
    in its name or in its value, nor a [=] in its name.  So the
    [Malformed mount option] rejection can only be caused by a default
    token: a request for which the defaults give no entry is never
    refused with it, whatever the caller passes. *)
Theorem caller_entries_have_no_comma :
  (forall (options : option string) (kv : string * string),
      In kv (given_entries options) ->
      strchr kv.1 "," = None /\ strchr kv.2 "," = None
      /\ strchr kv.1 "=" = None)
  /\ (forall daemon block caller_uid fs_type,
        candidates daemon block caller_uid fs_type None = Some [] ->
        forall options key,
          udisks_linux_calculate_mount_options daemon block caller_uid
            fs_type options
          <> Rejected (malformed_option key)).
Proof.
  split; [apply given_entries_clean|].
  intros daemon block uid fs_type Hd options key H.
  rewrite calculate_unfold, candidates_given, Hd in H. cbn in H.
  apply validate_rejected_inv in H as (k & v & Hin & [[Hc _]|[_ He]]).
  - apply given_entries_clean in Hin as (Hk & _). cbn [fst] in Hk.
    apply strstr_comma_none in Hk. contradiction.
  - symmetry in He. now apply not_allowed_is_not_malformed in He.
Qed.

Lemma caller_entries_have_no_comma_witness :
  candidates no_builtin_daemon plain_block 1000 (Some "vfat") None = Some []
  /\ udisks_linux_calculate_mount_options no_builtin_daemon plain_block 1000
       (Some "vfat") (Some "a,b")
     <> Rejected (malformed_option "a,b").
Proof.
  split; [reflexivity|].
  exact (proj2 caller_entries_have_no_comma no_builtin_daemon plain_block
           1000 (Some "vfat") eq_refl (Some "a,b") "a,b").
Defined.

Lemma validate_app daemon fsmo uid l1 : forall l2 str,
  validate_mount_options daemon fsmo uid (l1 ++ l2)%list str
  = match validate_mount_options daemon fsmo uid l1 str with
    | Options r => validate_mount_options daemon fsmo uid l2 r
    | other => other
    end.
Proof.
  induction l1 as [|[k v] l1 IH]; intros l2 str; [reflexivity|].
  change (((k, v) :: l1) ++ l2)%list with ((k, v) :: (l1 ++ l2))%list.
  cbn [validate_mount_options].
  destruct (bool_decide _); [reflexivity|].
  destruct (negb _); [reflexivity | apply IH].
Qed.

Lemma given_entries_sides (s1 s2 : string) :
  given_entries (Some (s1 ++ "," ++ s2))
  = (side_entries s1 ++ side_entries s2)%list.
Proof.
  unfold given_entries, side_entries, g_strsplit.
  change (s1 ++ "," ++ s2) with (s1 ++ String "," s2).
  rewrite <- map_app, <- strsplit_pieces_app.
  destruct s1; reflexivity.
Qed.

Lemma side_entries_not_empty (s : string) :
  s <> "" -> side_entries s = given_entries (Some s).
Proof. destruct s; [congruence | reflexivity]. Qed.

(** X23.  The options of the caller are validated from left to right and
    what follows an option cannot change its fate.  For every [s1] and
    [s2] the entries of [s1,s2] are those of the side [s1] followed by
    those of the side [s2], where a side that is not empty has the entries
    that it has as an option string of its own, and an empty side is one
    entry, with the empty name and no value.  A request that is refused
    with [s1] is refused with the same error with [s1,s2]; and when [s1]
    gives a string, the request with [s1,s2] continues from that string
    with the entries of [s2], after the entry of the empty side when [s1]
    is empty. *)
Theorem options_are_validated_left_to_right (s1 s2 : string) :
  given_entries (Some (s1 ++ "," ++ s2))
  = (side_entries s1 ++ side_entries s2)%list
  /\ side_entries "" = [("", VARIANT_NULL_STRING)]
  /\ (forall s, s <> "" -> side_entries s = given_entries (Some s))
  /\ forall daemon block caller_uid fs_type,
       (forall e,
           udisks_linux_calculate_mount_options daemon block caller_uid
             fs_type (Some s1) = Rejected e ->
           udisks_linux_calculate_mount_options daemon block caller_uid
             fs_type (Some (s1 ++ "," ++ s2)) = Rejected e)
       /\ (forall r,
             udisks_linux_calculate_mount_options daemon block caller_uid
               fs_type (Some s1) = Options r ->
             udisks_linux_calculate_mount_options daemon block caller_uid
               fs_type (Some (s1 ++ "," ++ s2))
             = validate_mount_options daemon
                 (effective_record daemon block fs_type) caller_uid
                 ((if decide (s1 = "") then side_entries "" else [])
                  ++ side_entries s2)%list r).
Proof.
  split; [apply given_entries_sides|]. split; [reflexivity|].
  split; [apply side_entries_not_empty|].
  intros daemon block uid fs_type.
  rewrite !calculate_unfold, (candidates_given _ _ _ _ (Some s1)),
    (candidates_given _ _ _ _ (Some (s1 ++ "," ++ s2))).
  destruct (candidates daemon block uid fs_type None) as [ds|];
    cbn [fmap option_fmap option_map]; [|split; intros ? H; discriminate].
  rewrite given_entries_sides.
  destruct (decide (s1 = "")) as [->|Hne].
  - change (given_entries (Some "")) with (@nil (string * string)).
    rewrite app_nil_r, (validate_app _ _ _ ds).
    split; intros x Hx; now rewrite Hx.
  - rewrite (side_entries_not_empty s1 Hne), app_assoc.
    rewrite (validate_app _ _ _ (ds ++ given_entries (Some s1))%list).
    split; intros x Hx; now rewrite Hx.
Qed.

Lemma options_are_validated_left_to_right_witness :
  udisks_linux_calculate_mount_options vfat_daemon plain_block 1000
    (Some "vfat") (Some "shortname=win95")
  = Rejected (option_not_allowed "shortname" (Some "win95"))
  /\ udisks_linux_calculate_mount_options vfat_daemon plain_block 1000
       (Some "vfat") (Some ("shortname=win95" ++ "," ++ "x-late"))
     = Rejected (option_not_allowed "shortname" (Some "win95"))
  /\ udisks_linux_calculate_mount_options vfat_daemon plain_block 1000
       (Some "vfat") (Some "")
     = Options "uhelper=udisks2,nodev,nosuid,uid=1000,gid=1000,shortname=mixed"
  /\ udisks_linux_calculate_mount_options vfat_daemon plain_block 1000
       (Some "vfat") (Some ("" ++ "," ++ "x-a"))
     = Rejected (option_not_allowed "" None).
Proof.
  split; [reflexivity|]. split; [|split; [reflexivity|]].
  - exact (proj1 (proj2 (proj2 (proj2 (options_are_validated_left_to_right
                                         "shortname=win95" "x-late")))
                    vfat_daemon plain_block 1000 (Some "vfat"))
             _ eq_refl).
  - exact (eq_trans
             (proj2 (proj2 (proj2 (proj2 (options_are_validated_left_to_right
                                            "" "x-a")))
                       vfat_daemon plain_block 1000 (Some "vfat"))
                _ eq_refl)
             eq_refl).
Defined.

Lemma given_entries_trailing_comma (s : string) :
  s <> "" ->
  given_entries (Some (s ++ ","))
  = (given_entries (Some s) ++ [("", VARIANT_NULL_STRING)])%list.
Proof.
  intros H. unfold given_entries, g_strsplit.
  destruct s as [|c s]; [congruence|].
  rewrite string_app_cons.
  change (String c (s ++ ",")) with (String c s ++ String "," "").
  now rewrite strsplit_pieces_app, map_app.
Qed.

(** X24.  A comma at the end of the option string is one more option, with
    the empty name and no value, and the empty string is no option at
    all: the entries of [s,] are those of the side [s] followed by the
    empty-named entry, which for a string [s] that is not empty are the
    entries of [s] followed by it.  Unless the policy allows the empty
    name, a request whose option string ends in a comma is never
    granted. *)
Theorem trailing_comma_is_an_empty_option (s : string) :
  given_entries (Some "") = []
  /\ given_entries (Some (s ++ ","))
     = (side_entries s ++ [("", VARIANT_NULL_STRING)])%list
  /\ (s <> "" ->
      given_entries (Some (s ++ ","))
      = (given_entries (Some s) ++ [("", VARIANT_NULL_STRING)])%list)
  /\ forall daemon block caller_uid fs_type,
       is_mount_option_allowed daemon (effective_record daemon block fs_type)
         "" None caller_uid = false ->
       forall r,
         udisks_linux_calculate_mount_options daemon block caller_uid fs_type
           (Some (s ++ ","))
         <> Options r.
Proof.
  split; [reflexivity|].
  split; [exact (given_entries_sides s "")|].
  split; [now apply given_entries_trailing_comma|].
  intros daemon block uid fs_type Hdeny r H.
  rewrite calculate_unfold, candidates_given in H.
  destruct (candidates daemon block uid fs_type None) as [ds|];
    cbn [fmap option_fmap option_map] in H; [|discriminate].
  apply validate_options_inv in H as [Hall _].
  rewrite (given_entries_sides s "" : given_entries (Some (s ++ ",")) = _)
    in Hall.
  change (side_entries "") with [("", VARIANT_NULL_STRING)] in Hall.
  rewrite !Forall_app in Hall. destruct Hall as (_ & _ & Hlast).
  inversion Hlast as [|? ? [_ Hp] _]; subst. cbn [fst snd] in Hp.
  change (variant_value VARIANT_NULL_STRING) with (@None string) in Hp.
  congruence.
Qed.

Lemma trailing_comma_is_an_empty_option_witness :
  "x-late" <> ""
  /\ is_mount_option_allowed vfat_daemon
       (effective_record vfat_daemon plain_block (Some "vfat")) "" None 1000
     = false
  /\ given_entries (Some ("x-late" ++ ","))
     = (given_entries (Some "x-late") ++ [("", VARIANT_NULL_STRING)])%list
  /\ forall r,
       udisks_linux_calculate_mount_options vfat_daemon plain_block 1000
         (Some "vfat") (Some ("x-late" ++ ","))
       <> Options r.
Proof.
  assert (H : "x-late" <> "") by discriminate.
  split; [exact H|]. split; [reflexivity|]. split.
  - exact (proj1 (proj2 (proj2 (trailing_comma_is_an_empty_option "x-late")))
             H).
  - exact (proj2 (proj2 (proj2 (trailing_comma_is_an_empty_option "x-late")))
             vfat_daemon plain_block 1000 (Some "vfat") eq_refl).
Defined.

Lemma rendered_no_comma (kv : string * string) :
  strchr kv.1 "," = None -> strchr kv.2 "," = None ->
  strchr (rendered kv) "," = None.
Proof.
  intros Hk Hv. unfold rendered, variant_value.
  destruct (g_str_equal kv.2 VARIANT_NULL_STRING); [exact Hk|].
  apply strchr_app_none; [exact Hk|].
  change ("=" ++ kv.2) with (String "=" kv.2). cbn [strchr].
  change (Ascii.eqb "=" ",") with false. cbv iota. now rewrite Hv.
Qed.

Lemma given_entry_rendered (kv : string * string) :
  strchr kv.1 "=" = None -> given_entry (rendered kv) = kv.
Proof.
  intros Hk. destruct kv as [k v]. unfold rendered, variant_value, g_str_equal.
  cbn [fst snd] in *.
  destruct (String.eqb_spec v VARIANT_NULL_STRING) as [->|_].
  - now apply given_entry_bare.
  - now apply given_entry_with_value.
Qed.

Lemma strsplit_pieces_serialize_all (l : list (string * string)) :
  forall s : string,
  Forall (fun kv => strchr (rendered kv) "," = None) l ->
  strsplit_pieces (s ++ serialize_all l) ","
  = (strsplit_pieces s "," ++ map rendered l)%list.
Proof.
  induction l as [|kv l IH]; intros s H.
  - cbn [serialize_all map]. now rewrite string_app_nil_r, app_nil_r.
  - inversion H as [|? ? Hkv Hl]; subst.
    change (serialize_all (kv :: l))
      with (("," ++ rendered kv) ++ serialize_all l).
    rewrite <- string_app_assoc, IH by exact Hl.
    change (s ++ "," ++ rendered kv) with (s ++ String "," (rendered kv)).
    rewrite strsplit_pieces_app, (strsplit_pieces_no_delim _ _ Hkv).
    now rewrite <- app_assoc.
Qed.

(** X25.  A returned option string can be read back.  When no value among
    the candidate entries has a comma and no name has a [=] (which always
    holds for the entries of the caller), cutting the string at its
    commas gives the three fixed options followed by one piece per entry,
    and splitting the string the way the options of a caller are split
    gives back the fixed options and the entries themselves: no entry
    merges with another or brings in an option of its own. *)
Theorem returned_string_reads_back (daemon : UDisksDaemon)
    (block : UDisksBlock) (caller_uid : Z) (fs_type options : option string)
    (cands : list (string * string)) (r : string) :
  candidates daemon block caller_uid fs_type options = Some cands ->
  udisks_linux_calculate_mount_options daemon block caller_uid fs_type options
  = Options r ->
  Forall (fun kv => strchr kv.2 "," = None /\ strchr kv.1 "=" = None) cands ->
  g_strsplit r ","
  = (["uhelper=udisks2"; "nodev"; "nosuid"] ++ map rendered cands)%list
  /\ given_entries (Some r) = (fixed_entries ++ cands)%list.
Proof.
  intros Hc Hr Hclean. rewrite calculate_unfold, Hc in Hr.
  apply validate_options_inv in Hr as [Hpass ->].
  assert (Hren : Forall (fun kv => strchr (rendered kv) "," = None) cands).
  { rewrite Forall_forall in *. intros kv Hin.
    destruct (Hclean kv Hin) as [Hv _]. destruct (Hpass kv Hin) as [Hk _].
    apply strstr_comma_none in Hk. now apply rendered_no_comma. }
  assert (Hsplit : g_strsplit ("uhelper=udisks2,nodev,nosuid"
                               ++ serialize_all cands) ","
                   = (["uhelper=udisks2"; "nodev"; "nosuid"]
                        ++ map rendered cands)%list).
  { change (g_strsplit ("uhelper=udisks2,nodev,nosuid" ++ serialize_all cands)
              ",")
      with (strsplit_pieces ("uhelper=udisks2,nodev,nosuid"
                             ++ serialize_all cands) ",").
    now rewrite strsplit_pieces_serialize_all. }
  split; [exact Hsplit|].
  unfold given_entries. rewrite Hsplit, map_app. f_equal.
  rewrite map_map. rewrite <- (map_id cands) at 2.
  apply map_ext_in. intros kv Hin. apply given_entry_rendered.
  rewrite Forall_forall in Hclean.
  apply (Hclean kv). now apply list_elem_of_In.
Qed.

Lemma returned_string_reads_back_witness :
  candidates vfat_daemon plain_block 1000 (Some "vfat") (Some "x-late")
  = Some [("uid", "1000"); ("gid", "1000"); ("shortname", "mixed");
          ("x-late", VARIANT_NULL_STRING)]
  /\ g_strsplit "uhelper=udisks2,nodev,nosuid,uid=1000,gid=1000,shortname=mixed,x-late" ","
     = ["uhelper=udisks2"; "nodev"; "nosuid"; "uid=1000"; "gid=1000";
        "shortname=mixed"; "x-late"].
Proof.
  split; [reflexivity|].
  refine (proj1 (returned_string_reads_back vfat_daemon plain_block 1000
                   (Some "vfat") (Some "x-late") _ _ eq_refl eq_refl _)).
  repeat constructor.
Defined.

Lemma g_ascii_tolower_idempotent (c : ascii) :
  g_ascii_tolower (g_ascii_tolower c) = g_ascii_tolower c.
Proof. destruct c as [[] [] [] [] [] [] [] []]; reflexivity. Qed.

Lemma g_ascii_strdown_idempotent (s : string) :
  g_ascii_strdown (g_ascii_strdown s) = g_ascii_strdown s.
Proof.
  induction s as [|c s IH]; [reflexivity|]. cbn [g_ascii_strdown].
  now rewrite g_ascii_tolower_idempotent, IH.
Qed.

(** X26.  The file system type is taken without regard to ASCII case: a
    request gives the same effective record and the same result as the
    request with the type in lower case.  Only the records keyed by the
    lower-case name are ever looked up. *)
Theorem fs_type_case_is_ignored (daemon : UDisksDaemon) (block : UDisksBlock)
    (caller_uid : Z) (fs_type : string) (options : option string) :
  effective_record daemon block (Some fs_type)
  = effective_record daemon block (Some (g_ascii_strdown fs_type))
  /\ udisks_linux_calculate_mount_options daemon block caller_uid
       (Some fs_type) options
     = udisks_linux_calculate_mount_options daemon block caller_uid
         (Some (g_ascii_strdown fs_type)) options.
Proof.
  unfold udisks_linux_calculate_mount_options, effective_record.
  cbn [fmap option_fmap option_map].
  now rewrite g_ascii_strdown_idempotent.
Qed.

(** X27.  A daemon without built-in table has no policy at all:
    [compute_mount_options_for_fs_type] returns NULL, no default is
    synthesized, and a request is granted exactly when every option of
    the caller has a name that starts with [x-]; the result is then the
    fixed options followed by the options as given. *)
Theorem without_builtin_table_only_x_options (daemon : UDisksDaemon)
    (block : UDisksBlock) (caller_uid : Z) (fs_type options : option string) :
  builtin_opts daemon = None ->
  candidates daemon block caller_uid fs_type options
  = Some (given_entries options)
  /\ ((exists r,
         udisks_linux_calculate_mount_options daemon block caller_uid fs_type
           options = Options r)
      <-> Forall (fun kv => g_str_has_prefix kv.1 "x-" = true)
            (given_entries options))
  /\ (forall r,
        udisks_linux_calculate_mount_options daemon block caller_uid fs_type
          options = Options r ->
        r = "uhelper=udisks2,nodev,nosuid"
            ++ serialize_all (given_entries options)).
Proof.
  intros Hb.
  assert (He : effective_record daemon block fs_type = None).
  { unfold effective_record, compute_mount_options_for_fs_type.
    now rewrite Hb. }
  assert (Hc : candidates daemon block caller_uid fs_type options
               = Some (given_entries options)).
  { unfold candidates. now rewrite He. }
  assert (Hallow : forall k v,
             is_mount_option_allowed daemon None k v caller_uid
             = g_str_has_prefix k "x-").
  { intros k v. unfold is_mount_option_allowed. cbn [mbind option_bind in_strv].
    destruct v as [v|]; [rewrite andb_false_r|];
      now destruct (g_str_has_prefix k "x-"). }
  split; [exact Hc|]. rewrite calculate_unfold, Hc, He. split.
  - split.
    + intros [r Hr]. apply validate_options_inv in Hr as [Hall _].
      rewrite Forall_forall in *. intros kv Hin.
      destruct (Hall kv Hin) as [_ Hp]. now rewrite Hallow in Hp.
    + intros Hx. eexists. apply validate_all_pass.
      rewrite Forall_forall in *. intros kv Hin. split.
      * apply strstr_comma_none.
        apply (given_entries_clean options kv). now apply list_elem_of_In.
      * rewrite Hallow. now apply Hx.
  - intros r Hr. now apply validate_options_inv in Hr as [_ ->].
Qed.

Lemma without_builtin_table_only_x_options_witness :
  builtin_opts no_builtin_daemon = None
  /\ candidates no_builtin_daemon plain_block 1000 (Some "vfat")
       (Some "x-late,ro")
     = Some (given_entries (Some "x-late,ro")).
Proof.
  split; [reflexivity|].
  exact (proj1 (without_builtin_table_only_x_options no_builtin_daemon
                  plain_block 1000 (Some "vfat") (Some "x-late,ro") eq_refl)).
Defined.

Lemma in_strv_incl (a a' : option (list string)) (s : string) :
  (forall x, In x (strv_entries a) -> In x (strv_entries a')) ->
  in_strv a s = true -> in_strv a' s = true.
Proof.
  intros Hincl H. unfold in_strv, strv_entries in *.
  destruct a as [l|]; [|discriminate].
  apply g_strv_contains_spec in H. specialize (Hincl s H).
  destruct a' as [l'|]; [now apply g_strv_contains_spec | destruct Hincl].
Qed.

(** X28.  Entries added to [allow] never take a permission away: an option
    that a record allows is allowed by every record with the same
    self-match lists whose [allow] holds at least the same entries. *)
Theorem longer_allow_list_allows_more (daemon : UDisksDaemon)
    (f f' : FSMountOptions) (opt : string) (value : option string)
    (caller_uid : Z) :
  allow_uid_self f' = allow_uid_self f ->
  allow_gid_self f' = allow_gid_self f ->
  (forall x, In x (strv_entries (allow f)) -> In x (strv_entries (allow f'))) ->
  is_mount_option_allowed daemon (Some f) opt value caller_uid = true ->
  is_mount_option_allowed daemon (Some f') opt value caller_uid = true.
Proof.
  intros Hu Hg Hincl. unfold is_mount_option_allowed.
  cbn [mbind option_bind]. rewrite Hu, Hg.
  pose proof (in_strv_incl (allow f) (allow f')) as Hin.
  destruct (match value with
            | Some v => Nat.ltb 0 (String.length v)
                        && in_strv (allow f') (opt ++ "=" ++ v)
            | None => false
            end) eqn:E'; [reflexivity|].
  assert (E : match value with
              | Some v => Nat.ltb 0 (String.length v)
                          && in_strv (allow f) (opt ++ "=" ++ v)
              | None => false
              end = false).
  { destruct value as [v|]; [|reflexivity].
    destruct (Nat.ltb 0 (String.length v)); [|reflexivity]. cbn [andb] in *.
    destruct (in_strv (allow f) (opt ++ "=" ++ v)) eqn:Ea; [|reflexivity].
    now rewrite (Hin _ Hincl Ea) in E'. }
  rewrite E.
  destruct (in_strv (allow_uid_self f) opt); [tauto|].
  destruct (in_strv (allow_gid_self f) opt); [tauto|].
  destruct (in_strv (allow f) (opt ++ "=")) eqn:E1.
  { now rewrite (Hin _ Hincl E1). }
  destruct (in_strv (allow f') (opt ++ "=")); [reflexivity|].
  destruct (in_strv (allow f) opt) eqn:E2.
  { now rewrite (Hin _ Hincl E2). }
  destruct (in_strv (allow f') opt); [reflexivity|]. tauto.
Qed.

Lemma longer_allow_list_allows_more_witness :
  is_mount_option_allowed vfat_daemon (Some (allow_only ["flush"])) "flush"
    None 1000 = true
  /\ is_mount_option_allowed vfat_daemon (Some (allow_only ["exec"; "flush"]))
       "flush" None 1000 = true.
Proof.
  split; [reflexivity|].
  refine (longer_allow_list_allows_more vfat_daemon (allow_only ["flush"])
            (allow_only ["exec"; "flush"]) "flush" None 1000
            eq_refl eq_refl _ eq_refl).
  intros x [<-|[]]. right. now left.
Defined.

(** X29.  A default token that the administrator also lists in [allow],
    value included, is used as it stands and passes the validation: it is
    not replaced by the caller's uid or gid, nor adjusted for a shared
    file system.  (The value must not be the byte 0x01, which stands for
    no value.) *)
Theorem default_listed_in_allow_is_used_verbatim (daemon : UDisksDaemon)
    (f : FSMountOptions) (caller_uid : Z) (shared_fs : bool)
    (name value : string) :
  strchr name "=" = None ->
  strchr name "," = None ->
  value <> "" ->
  value <> VARIANT_NULL_STRING ->
  In (name ++ "=" ++ value) (strv_entries (allow f)) ->
  default_entry daemon f caller_uid shared_fs (name ++ "=" ++ value)
  = Some [(name, value)]
  /\ entry_passes daemon (Some f) caller_uid (name, value).
Proof.
  intros Hname Hcomma Hv Hs Hin.
  assert (Ha : in_strv (allow f) (name ++ "=" ++ value) = true)
    by now apply (in_strv_entries f allow).
  assert (Hl : Nat.ltb 0 (String.length value) = true)
    by now apply string_length_pos.
  split.
  - unfold default_entry.
    change (name ++ "=" ++ value) with (name ++ String "=" value) in *.
    rewrite (strchr_app_found name value "=" Hname). cbv beta iota zeta.
    now rewrite str_offset_past_separator, Hl, Ha, g_strndup_app.
  - split; [now apply strstr_comma_none|]. cbn [fst snd].
    unfold variant_value, g_str_equal.
    destruct (String.eqb_spec value VARIANT_NULL_STRING); [congruence|].
    unfold is_mount_option_allowed. cbn [mbind option_bind].
    now rewrite Hl, Ha.
Qed.

Lemma default_listed_in_allow_is_used_verbatim_witness :
  In ("mode" ++ "=" ++ "0750") (strv_entries (allow (allow_only ["mode=0750"])))
  /\ default_entry vfat_daemon (allow_only ["mode=0750"]) 1000 true
       ("mode" ++ "=" ++ "0750")
     = Some [("mode", "0750")].
Proof.
  assert (H : In ("mode" ++ "=" ++ "0750")
                (strv_entries (allow (allow_only ["mode=0750"]))))
    by (now left).
  split; [exact H|].
  refine (proj1 (default_listed_in_allow_is_used_verbatim vfat_daemon
                   (allow_only ["mode=0750"]) 1000 true "mode" "0750"
                   eq_refl eq_refl _ _ H)); discriminate.
Defined.

(** * An invariant of the resolver *)

Lemma record_nodup_zero : record_nodup fsmo_zero.
Proof.
  intros m Hm. unfold fsmo_members in Hm. cbn [In] in Hm.
  destruct Hm as [<-|[<-|[<-|[<-|[]]]]]; constructor.
Qed.

Lemma override_nodup (src : option FSMountOptions) (dest : FSMountOptions) :
  (forall s, src = Some s -> record_nodup s) ->
  record_nodup dest ->
  record_nodup (override_fs_mount_options src dest).
Proof.
  intros Hs Hd. destruct src as [s|]; [|exact Hd].
  intros m Hm. rewrite (override_member_spec s dest m Hm).
  specialize (Hs s eq_refl m Hm). specialize (Hd m Hm).
  unfold OVERRIDE_MEMBER. now destruct (m s).
Qed.

Lemma override_from_table_nodup t fstype fsmo fsmo_any changed :
  table_nodup t -> record_nodup fsmo -> record_nodup fsmo_any ->
  record_nodup (override_from_table t fstype (fsmo, fsmo_any, changed)).1.1
  /\ record_nodup
       (override_from_table t fstype (fsmo, fsmo_any, changed)).1.2.
Proof.
  intros Ht Hf Ha. unfold override_from_table. cbn [fst snd]. split.
  - apply override_nodup; [|exact Hf].
    intros s Hs. destruct fstype as [ft|]; [|discriminate].
    cbn in Hs. exact (Ht ft s Hs).
  - apply override_nodup; [|exact Ha]. intros s Hs. exact (Ht _ s Hs).
Qed.

Lemma g_hash_table_lookup_in (opts : block_table) (k : string)
    (t : gmap string FSMountOptions) :
  g_hash_table_lookup opts k = Some t -> exists k', In (k', t) opts.
Proof.
  induction opts as [|[k0 t0] opts IH]; [discriminate|].
  cbn [g_hash_table_lookup]. destruct (g_str_equal k0 k).
  - intros H. inversion H; subst. exists k0. now left.
  - intros H. destruct (IH H) as [k' Hk']. exists k'. now right.
Qed.

Lemma block_level_nodup opts block fstype fsmo fsmo_any :
  block_table_nodup opts -> record_nodup fsmo -> record_nodup fsmo_any ->
  record_nodup
    (compute_block_level_mount_options opts block fstype fsmo fsmo_any).1.1
  /\ record_nodup
       (compute_block_level_mount_options opts block fstype fsmo fsmo_any).1.2.
Proof.
  intros Ho Hf Ha. unfold compute_block_level_mount_options.
  assert (Hg : record_nodup
                 (match g_hash_table_lookup opts
                          MOUNT_OPTIONS_CONFIG_GROUP_DEFAULTS with
                  | Some g => override_from_table g fstype (fsmo, fsmo_any, false)
                  | None => (fsmo, fsmo_any, false)
                  end).1.1
               /\ record_nodup
                    (match g_hash_table_lookup opts
                             MOUNT_OPTIONS_CONFIG_GROUP_DEFAULTS with
                     | Some g =>
                         override_from_table g fstype (fsmo, fsmo_any, false)
                     | None => (fsmo, fsmo_any, false)
                     end).1.2).
  { destruct (g_hash_table_lookup opts _) as [g|] eqn:E; [|now split].
    apply g_hash_table_lookup_in in E as [k' Hk'].
    apply override_from_table_nodup; [exact (Ho k' g Hk') | assumption..]. }
  destruct (match g_hash_table_lookup opts _ with
            | Some g => _ | None => _ end) as [[f1 a1] c1].
  cbn [fst snd] in Hg. destruct Hg as [Hf1 Ha1].
  destruct (match block with Some _ => _ | None => _ end) as [bo|] eqn:Eb;
    [|now split].
  assert (Hbo : table_nodup bo).
  { destruct block as [b|]; [|discriminate].
    destruct (match_block_key _ _ _) as [k|]; [|discriminate].
    cbn in Eb. apply g_hash_table_lookup_in in Eb as [k' Hk'].
    exact (Ho k' bo Hk'). }
  now apply override_from_table_nodup.
Qed.

(** X30.  The resolver keeps the lists free of repeated entries: when no
    record of the built-in table, of the configuration file and of the
    udev properties repeats an entry inside one of its lists, no list of
    the effective record does, although it is put together from up to
    six records. *)
Theorem effective_record_has_no_repeated_entry (daemon : UDisksDaemon)
    (builtin : block_table) (block : UDisksBlock) (fstype : option string)
    (r : FSMountOptions) :
  builtin_opts daemon = Some builtin ->
  block_table_nodup builtin ->
  (forall overrides,
      config_file_opts daemon = Some overrides -> block_table_nodup overrides) ->
  (forall dev,
      udev_device block = Some dev -> table_nodup (udev_mount_options dev)) ->
  compute_mount_options_for_fs_type daemon block fstype = Some r ->
  record_nodup r.
Proof.
  intros Hb Hnb Hnc Hnu Hr.
  unfold compute_mount_options_for_fs_type in Hr. rewrite Hb in Hr.
  assert (Hacc : record_nodup (accumulate_origins daemon builtin block fstype).1.1
                 /\ record_nodup
                      (accumulate_origins daemon builtin block fstype).1.2).
  { unfold accumulate_origins.
    pose proof (block_level_nodup builtin (Some block) fstype fsmo_zero
                  fsmo_zero Hnb record_nodup_zero record_nodup_zero) as H1.
    destruct (compute_block_level_mount_options builtin _ _ _ _)
      as [[f1 a1] c1]. cbn [fst snd] in H1. destruct H1 as [Hf1 Ha1].
    assert (H2 : record_nodup
                   (match config_file_opts daemon with
                    | Some overrides =>
                        compute_block_level_mount_options overrides
                          (Some block) fstype f1 a1
                    | None => (f1, a1, false)
                    end).1.1
                 /\ record_nodup
                      (match config_file_opts daemon with
                       | Some overrides =>
                           compute_block_level_mount_options overrides
                             (Some block) fstype f1 a1
                       | None => (f1, a1, false)
                       end).1.2).
    { destruct (config_file_opts daemon) as [o|]; [|now split].
      apply block_level_nodup; [now apply Hnc | assumption..]. }
    destruct (match config_file_opts daemon with
              | Some _ => _ | None => _ end) as [[f2 a2] c2].
    cbn [fst snd] in H2. destruct H2 as [Hf2 Ha2].
    destruct (udev_device block) as [dev|]; [|now split].
    apply override_from_table_nodup; [now apply Hnu | assumption..]. }
  destruct (accumulate_origins daemon builtin block fstype) as [[f a] c].
  cbn [fst snd] in Hacc. destruct Hacc as [Hf Ha].
  inversion Hr; subst r. intros m Hm.
  specialize (Hf m Hm). specialize (Ha m Hm).
  unfold fsmo_members in Hm. cbn [In] in Hm.
  destruct Hm as [<-|[<-|[<-|[<-|[]]]]];
    cbn [append_fs_mount_options defaults allow allow_uid_self allow_gid_self];
    now apply strv_append_unique_nodup.
Qed.

Lemma effective_record_has_no_repeated_entry_witness :
  compute_mount_options_for_fs_type bare_defaults_daemon plain_block
    (Some "vfat")
  = Some (mkFSMountOptions (Some ["uid"; "gid"; "shortname=mixed"])
            (Some vfat_allow) None None)
  /\ record_nodup
       (mkFSMountOptions (Some ["uid"; "gid"; "shortname=mixed"])
          (Some vfat_allow) None None).
Proof.
  split; [reflexivity|].
  refine (effective_record_has_no_repeated_entry bare_defaults_daemon _
            plain_block (Some "vfat") _ eq_refl _ _ _ eq_refl).
  - intros k t [E|[]]. inversion E; subst. intros k' r Hr.
    apply lookup_insert_Some in Hr as [[_ <-]|[_ Hr]].
    + intros m Hm. unfold fsmo_members in Hm. cbn [In] in Hm.
      destruct Hm as [<-|[<-|[<-|[<-|[]]]]];
        apply (bool_decide_unpack _); reflexivity.
    + apply lookup_singleton_Some in Hr as [_ <-].
      intros m Hm. unfold fsmo_members in Hm. cbn [In] in Hm.
      destruct Hm as [<-|[<-|[<-|[<-|[]]]]];
        apply (bool_decide_unpack _); reflexivity.
  - intros o Ho. discriminate.
  - intros dev Hd. inversion Hd; subst. intros k r' Hk.
    cbn in Hk. rewrite lookup_empty in Hk. discriminate.
Defined.

(** * The caller's option string and the tokenizer *)








